(** * Fraud-detection browser extension: link gate, annotation and dedup

    A shallow embedding of [extension/content.js] (the content script:
    link discovery, scoring coordination, annotation and the click gate)
    and of [extension/background.js] (the coordinator: the out-of-band
    analysis, its counters and notifications), followed by the properties
    the specification states about them.

    Conventions of the embedding.
    - JavaScript strings are [string]s of bytes (UTF-8), so a glyph such as
      the siren is a few characters long; only concatenation and the ASCII
      prefix tests of the source are performed on them.
    - A JavaScript number that is an integer is a [Z]; [NaN] is a value of
      its own ([jsnum]).  Fractional numbers are outside the model.  A
      number is a double, so an integer is held and printed digit by digit
      only in the safe range, below 2^53 in absolute value: the statements
      that print a score or read a printed score back are made for such
      integers ([JS.prints_plainly]).
    - The page is an HTML document: the [tagName] of an HTML element is in
      upper case, that of an SVG element keeps its case ([Content.href_of]).
    - An [async] function is split at its first [await] into the part that
      runs synchronously ([.._start]) and its continuation ([.._resume]),
      which the event loop runs as a separate task when the request settles.
    - Mutable objects shared between tasks (the [analyzedLinks] set, the DOM
      elements, [stats]) live in an explicit page or worker state.
    - The warning modal is the element tree of the markup the script
      writes.  The three values interpolated into that markup are kept as
      strings; the tree is the template's as long as none of them contains
      a [<] ([JS.has_tag_open]), which the statements about the modal's
      buttons assume. *)

From Stdlib Require Import ZArith Lia Bool Ascii String.
From stdpp Require Import base option list gmap sets strings.

Set Warnings "-register-all".

Local Open Scope string_scope.
Local Open Scope Z_scope.
Local Open Scope list_scope.

(* ===================================================================== *)
(** ** The JavaScript fragment the two scripts rely on                    *)
(* ===================================================================== *)

Module JS.

(** A number as the scripts see it: an integer, or [NaN]. *)
Inductive jsnum :=
| NaN
| Num (n : Z).

(** A JSON field that the scripts only print ([result.risk_level],
    [result.recommendation]): [VUndefined] when the field is absent. *)
Inductive jsval :=
| VUndefined
| VNull
| VInt (n : Z)
| VStr (s : string).

(** [x >= k] for a number [x] and an integer constant [k]: false on NaN. *)
Definition ge (x : jsnum) (k : Z) : bool :=
  match x with
  | NaN => false
  | Num n => k <=? n
  end.

Definition nl : string := String (ascii_of_nat 10) EmptyString.

(** *** Number to string *)

Definition digit_char (d : Z) : ascii :=
  ascii_of_nat (Z.to_nat (48 + d)).

(** Decimal digits of [n], least significant first. *)
Fixpoint rev_digits (fuel : nat) (n : Z) : list Z :=
  match fuel with
  | O => [n `mod` 10]
  | S f => (n `mod` 10) :: (if n <? 10 then [] else rev_digits f (n `div` 10))
  end.

Definition string_of_chars (l : list ascii) : string :=
  fold_right String EmptyString l.

Definition nat_digits (n : Z) : string :=
  string_of_chars (digit_char <$> rev (rev_digits (Z.to_nat (Z.log2 n)) n)).

(** [Number.prototype.toString] on an integer: the decimal numeral, with
    a leading minus sign below zero.  This is what JavaScript prints for a
    safe integer ([Number.isSafeInteger]: at most 2^53 - 1 in absolute
    value).  Beyond that range a number is a double that need not be the
    integer its source text denotes, and it prints with the shortest digits
    that read back to the same double (in exponent notation from 10^21 on):
    [JSON.parse], [parseInt] and this function are exact on safe integers
    only, and the statements about printed scores are made for the integers
    that satisfy [prints_plainly]. *)
Definition prints_plainly (n : Z) : Prop := Z.abs n < 2 ^ 53.

Definition Number_toString (n : Z) : string :=
  if n <? 0 then "-" +:+ nat_digits (- n) else nat_digits n.

Definition jsnum_toString (x : jsnum) : string :=
  match x with
  | NaN => "NaN"
  | Num n => Number_toString n
  end.

(** [ToString], as template literals and [setAttribute] apply it. *)
Definition ToString (v : jsval) : string :=
  match v with
  | VUndefined => "undefined"
  | VNull => "null"
  | VInt n => Number_toString n
  | VStr s => s
  end.

(** A field that [ToString] prints as JavaScript does: any but a number
    outside the safe range. *)
Definition prints_as_written (v : jsval) : Prop :=
  match v with
  | VInt n => prints_plainly n
  | _ => True
  end.

(** *** parseInt *)

Definition byte (c : ascii) : Z := Z.of_nat (nat_of_ascii c).

(** One-byte white space and line terminators: TAB, LF, VT, FF, CR, SP. *)
Definition is_ws1 (c : ascii) : bool :=
  let b := byte c in
  ((9 <=? b) && (b <=? 13)) || (b =? 32).

(** Two-byte: U+00A0. *)
Definition is_ws2 (c1 c2 : ascii) : bool :=
  (byte c1 =? 194) && (byte c2 =? 160).

(** Three-byte: U+1680, U+2000..U+200A, U+2028, U+2029, U+202F, U+205F,
    U+3000, U+FEFF. *)
Definition is_ws3 (c1 c2 c3 : ascii) : bool :=
  let '(a, b, c) := (byte c1, byte c2, byte c3) in
  ((a =? 225) && (b =? 154) && (c =? 128))
  || ((a =? 226) && (b =? 128)
      && (((128 <=? c) && (c <=? 138)) || (c =? 168) || (c =? 169) || (c =? 175)))
  || ((a =? 226) && (b =? 129) && (c =? 159))
  || ((a =? 227) && (b =? 128) && (c =? 128))
  || ((a =? 239) && (b =? 187) && (c =? 191)).

(** [TrimString(s, start)]. *)
Fixpoint trim_start (s : string) : string :=
  match s with
  | String c1 r1 =>
      if is_ws1 c1 then trim_start r1
      else match r1 with
           | String c2 r2 =>
               if is_ws2 c1 c2 then trim_start r2
               else match r2 with
                    | String c3 r3 =>
                        if is_ws3 c1 c2 c3 then trim_start r3 else s
                    | EmptyString => s
                    end
           | EmptyString => s
           end
  | EmptyString => s
  end.

(** Value of a character as a digit in some radix up to 36. *)
Definition digit_val (c : ascii) : option Z :=
  let b := byte c in
  if (48 <=? b) && (b <=? 57) then Some (b - 48)
  else if (97 <=? b) && (b <=? 122) then Some (b - 87)
  else if (65 <=? b) && (b <=? 90) then Some (b - 55)
  else None.

(** A decimal digit character. *)
Definition is_dec (c : ascii) : bool := (48 <=? byte c) && (byte c <=? 57).

Definition radix_digit (R : Z) (c : ascii) : option Z :=
  match digit_val c with
  | Some d => if d <? R then Some d else None
  | None => None
  end.

(** The value of the longest prefix of radix-[R] digits, from [acc]. *)
Fixpoint parse_digits (R : Z) (s : string) (acc : Z) : Z :=
  match s with
  | String c r =>
      match radix_digit R c with
      | Some d => parse_digits R r (acc * R + d)
      | None => acc
      end
  | EmptyString => acc
  end.

Definition starts_with_digit (R : Z) (s : string) : bool :=
  match s with
  | String c _ => bool_decide (is_Some (radix_digit R c))
  | EmptyString => false
  end.

(** [parseInt(s)] with no radix argument: skip leading white space, read
    a sign, switch to radix 16 after [0x] or [0X], read the longest run of
    digits; [NaN] when there is none.  The mathematical value is returned
    exactly, which is the number JavaScript returns when that value is a
    safe integer.  (Above 2^53 JavaScript rounds to a double; the rounding
    is monotone and fixes 40 and 70, so the two comparisons of the click
    listener come out the same, but the number it prints differs.) *)
Definition read_sign (s : string) : Z * string :=
  match s with
  | String "-" r => (-1, r)
  | String "+" r => (1, r)
  | _ => (1, s)
  end.

Definition read_radix (s : string) : Z * string :=
  match s with
  | String "0" (String "x" r) => (16, r)
  | String "0" (String "X" r) => (16, r)
  | _ => (10, s)
  end.

Definition parseInt (s : string) : jsnum :=
  let '(sign, S1) := read_sign (trim_start s) in
  let '(R, S2) := read_radix S1 in
  if starts_with_digit R S2 then Num (sign * parse_digits R S2 0) else NaN.

(** [a || d] on the result of [getAttribute]: [null] and the empty string
    are falsy. *)
Definition or_default (a : option string) (d : string) : string :=
  match a with
  | Some EmptyString | None => d
  | Some s => s
  end.

(** [result.risk_score] as [JSON.parse] may deliver it: absent
    ([undefined] when read), [null], or an integer number.  Scores of other
    JSON types (strings, fractions, containers) are outside the model. *)
Inductive jsscore :=
| SUndefined
| SNull
| SInt (n : Z).

(** [ToNumber], as [score >= k] applies it to its left operand. *)
Definition ToNumber (v : jsscore) : jsnum :=
  match v with
  | SUndefined => NaN
  | SNull => Num 0
  | SInt n => Num n
  end.

Definition score_toString (v : jsscore) : string :=
  match v with
  | SUndefined => "undefined"
  | SNull => "null"
  | SInt n => Number_toString n
  end.

(** What the service answered, once [response.json()] has parsed it.  Any
    JSON value but [null] reads as an object whose absent fields are
    [undefined]. *)
Inductive json_result :=
| JNull
| JObject (risk_score : jsscore) (risk_level : jsval) (recommendation : jsval).

Inductive body :=
| NotJson
| Json (r : json_result).

(** How a [fetch] settles.  [ok] is [response.ok] (a 2xx status). *)
Inductive fetch_outcome :=
| Rejected
| Responded (ok : bool) (b : body).

Inductive error :=
| NetworkError
| SyntaxError
| TypeError.

(** [ToInt32]: how a number becomes a WebIDL [long], such as the delay of
    [setTimeout]: modulo 2^32, into the range from -2^31 to 2^31 - 1. *)
Definition ToInt32 (n : Z) : Z := (n + 2 ^ 31) `mod` 2 ^ 32 - 2 ^ 31.

(** Whether a string contains a [<].  Interpolated into the text of markup
    that is assigned to [innerHTML], a string without one opens no tag, so
    the parser builds no element from it. *)
Fixpoint has_tag_open (s : string) : bool :=
  match s with
  | String c r => (c =? "<")%char || has_tag_open r
  | EmptyString => false
  end.

End JS.

(* ===================================================================== *)
(** ** extension/content.js                                               *)
(* ===================================================================== *)

Module Content.
Import JS.

(** *** Data *)

(** Identity of a DOM element (the object a closure or an event holds). *)
Definition elemId := nat.

(** The script-visible state of an element.  [tagName] is [A] for an HTML
    anchor and [a] for an SVG anchor (an [<a>] inside [<svg>]).  [href] is
    [None] when the element has no [href] attribute; on an HTML anchor it
    otherwise holds what the [.href] property returns (the resolved URL,
    or the attribute as written when it cannot be resolved), on another
    element the attribute.  The fields after it are what the content script
    writes. *)
Record element := mkElement {
  tagName : string;
  href : option string;
  data_risk_score : option string;
  data_risk_level : option string;
  style_border : option string;
  style_backgroundColor : option string;
  title : option string;
  badges : list string
}.

(** An element nobody has touched. *)
Definition plain (tag : string) (h : option string) : element :=
  mkElement tag h None None None None None [].

(** What [el.href] evaluates to.  On an HTML anchor it is a string, empty
    without the attribute.  On an SVG anchor it is an [SVGAnimatedString]
    object.  (The script reads the property of no other kind of element:
    its selectors and its [tagName] test let only these two through.) *)
Inductive href_value :=
| HrefString (url : string)
| HrefObject.

Definition href_of (e : element) : href_value :=
  if bool_decide (tagName e = "A") then HrefString (default EmptyString (href e))
  else HrefObject.

(** [el.href] as a string, the way a template literal prints it. *)
Definition href_prop (e : element) : string :=
  match href_of e with
  | HrefString url => url
  | HrefObject => "[object SVGAnimatedString]"
  end.

(** A subtree of the document. *)
Inductive node :=
| Element (id : elemId) (children : list node)
| OtherNode.

Record request := mkRequest {
  req_time : Z;
  req_url : string;
  req_link : elemId
}.

Record timer := mkTimer {
  due : Z;
  timer_link : elemId
}.

(** The page as the content script sees it. *)
Record page := mkPage {
  analyzedLinks : gset string;        (* const analyzedLinks = new Set() *)
  now : Z;                            (* the clock, in ms *)
  timers : list timer;                (* pending setTimeout callbacks, by due time *)
  requests : list request;            (* every fetch issued, in order *)
  settled : gset nat;                 (* requests whose continuation has run *)
  elements : gmap elemId element;     (* the DOM elements *)
  console_error : list error          (* console.error('Link analysis failed') *)
}.

Definition get (st : page) (id : elemId) : element :=
  default (plain EmptyString None) (elements st !! id).

Definition set_analyzedLinks (f : gset string → gset string) (st : page) : page :=
  mkPage (f (analyzedLinks st)) (now st) (timers st) (requests st) (settled st)
         (elements st) (console_error st).
Definition set_now (t : Z) (st : page) : page :=
  mkPage (analyzedLinks st) t (timers st) (requests st) (settled st)
         (elements st) (console_error st).
Definition set_timers (f : list timer → list timer) (st : page) : page :=
  mkPage (analyzedLinks st) (now st) (f (timers st)) (requests st) (settled st)
         (elements st) (console_error st).
Definition set_requests (f : list request → list request) (st : page) : page :=
  mkPage (analyzedLinks st) (now st) (timers st) (f (requests st)) (settled st)
         (elements st) (console_error st).
Definition set_settled (f : gset nat → gset nat) (st : page) : page :=
  mkPage (analyzedLinks st) (now st) (timers st) (requests st) (f (settled st))
         (elements st) (console_error st).
Definition set_element (id : elemId) (e : element) (st : page) : page :=
  mkPage (analyzedLinks st) (now st) (timers st) (requests st) (settled st)
         (<[id := e]> (elements st)) (console_error st).
Definition log_error (x : error) (st : page) : page :=
  mkPage (analyzedLinks st) (now st) (timers st) (requests st) (settled st)
         (elements st) (console_error st ++ [x]).

(** The page when the script is injected: nothing indexed, nothing pending. *)
Definition fresh (els : gmap elemId element) : page :=
  mkPage ∅ 0 [] [] ∅ els [].

(** *** Selectors *)

(** Matches [a[href]]: the type selector [a] matches the HTML anchor and
    the SVG anchor alike. *)
Definition is_link (e : element) : bool :=
  (bool_decide (tagName e = "A") || bool_decide (tagName e = "a"))
  && bool_decide (is_Some (href e)).

Fixpoint subtree (n : node) : list elemId :=
  match n with
  | Element id children => id :: flat_map subtree children
  | OtherNode => []
  end.

(** [document.querySelectorAll('a[href]')], in document order. *)
Definition querySelectorAll_document (st : page) (doc : list node) : list elemId :=
  List.filter (fun id => is_link (get st id)) (flat_map subtree doc).

(** [node.querySelectorAll('a[href]')]: the descendants, not the node. *)
Definition querySelectorAll (st : page) (n : node) : list elemId :=
  match n with
  | Element _ children =>
      List.filter (fun id => is_link (get st id)) (flat_map subtree children)
  | OtherNode => []
  end.

(** *** analyzeLinkElement *)

Definition startsWith (s p : string) : bool := String.prefix p s.

(** The guard of line 54, negated: the URL is one the script analyses. *)
Definition http_or_https (url : string) : bool :=
  startsWith url "http://" || startsWith url "https://".

(** Up to the first [await]: the membership test, the protocol guard, the
    insertion into [analyzedLinks] and the call of [fetch].  When [url] is
    not a string, [has] does not find it and [url.startsWith] is not a
    function: the TypeError is thrown outside the [try] block and rejects
    the promise the function returns, which no caller looks at. *)
Definition analyzeLinkElement_start (linkElement : elemId) (st : page) : page :=
  match href_of (get st linkElement) with
  | HrefObject => st
  | HrefString url =>
      if bool_decide (url ∈ analyzedLinks st) then st
      else if negb (startsWith url "http://") && negb (startsWith url "https://") then st
      else
        let st := set_analyzedLinks (fun s => s ∪ {[url]}) st in
        set_requests (fun rs => rs ++ [mkRequest (now st) url linkElement]) st
  end.

(** The locals [color] and [emoji] and the inline style of
    [addRiskIndicator]'s four branches. *)
Definition indicator (score : jsscore) (e : element)
  : string * string * element :=
  let restyle b g :=
    mkElement (tagName e) (href e) (data_risk_score e) (data_risk_level e)
              (Some b) (Some g) (title e) (badges e) in
  if ge (ToNumber score) 70 then
    ("#ef4444", "🚨", restyle "2px solid #ef4444" "#fee2e2")
  else if ge (ToNumber score) 40 then
    ("#f59e0b", "⚠️", restyle "2px solid #f59e0b" "#fef3c7")
  else if ge (ToNumber score) 20 then
    ("#3b82f6", "ℹ️", e)
  else
    ("#10b981", "✅", e).

Definition addRiskIndicator (score : jsscore) (risk_level : jsval) (e : element)
  : element :=
  let '(color, emoji, e) := indicator score e in
  let tooltip :=
    emoji +:+ " Risk Score: " +:+ score_toString score +:+ "/100 - "
          +:+ ToString risk_level in
  let badge := emoji in
  mkElement (tagName e) (href e) (data_risk_score e) (data_risk_level e)
            (style_border e) (style_backgroundColor e) (Some tooltip)
            (if ge (ToNumber score) 40 then badges e ++ [badge] else badges e).

Definition setAttribute_risk_score (v : string) (e : element) : element :=
  mkElement (tagName e) (href e) (Some v) (data_risk_level e)
            (style_border e) (style_backgroundColor e) (title e) (badges e).
Definition setAttribute_risk_level (v : string) (e : element) : element :=
  mkElement (tagName e) (href e) (data_risk_score e) (Some v)
            (style_border e) (style_backgroundColor e) (title e) (badges e).

(** What the [try] block does to the element once the response is there,
    or the error its [catch] receives.  [response.ok] is not looked at. *)
Definition annotate (o : fetch_outcome) (e : element) : error + element :=
  match o with
  | Rejected => inl NetworkError
  | Responded _ NotJson => inl SyntaxError
  | Responded _ (Json JNull) => inl TypeError
  | Responded _ (Json (JObject score level _)) =>
      let e := addRiskIndicator score level e in
      let e := setAttribute_risk_score (score_toString score) e in
      inr (setAttribute_risk_level (ToString level) e)
  end.

(** After the [await]s: the continuation of the [k]-th request, run when it
    settles (a request settles once).  The awaits of [fetch] and of
    [response.json()] are taken together: the function reads and writes
    nothing between them. *)
Definition analyzeLinkElement_resume (k : nat) (o : fetch_outcome) (st : page) : page :=
  match requests st !! k with
  | None => st
  | Some r =>
      if bool_decide (k ∈ settled st) then st
      else
        let st := set_settled (fun s => s ∪ {[k]}) st in
        match annotate o (get st (req_link r)) with
        | inl err => log_error err st
        | inr e => set_element (req_link r) e st
        end
  end.

(** *** Timers, scan and mutation callback *)

(** A new timer is queued behind the timers due no later. *)
Fixpoint enqueue (t : timer) (q : list timer) : list timer :=
  match q with
  | [] => [t]
  | t' :: q' => if due t' <=? due t then t' :: enqueue t q' else t :: q
  end.

(** The time [setTimeout] waits for a given delay: the delay is a [long],
    and a negative one counts as zero.  (The scan is not started from a
    timer callback, so the 4 ms floor of nested timers does not apply.) *)
Definition timeout (delay : Z) : Z := Z.max 0 (ToInt32 delay).

(** [setTimeout(cb, delay)]. *)
Definition setTimeout (linkElement : elemId) (delay : Z) (st : page) : page :=
  set_timers (enqueue (mkTimer (now st + timeout delay) linkElement)) st.

(** [links.forEach((link, index) => setTimeout(..., index * 100))]. *)
Fixpoint forEach_setTimeout (index : nat) (links : list elemId) (st : page) : page :=
  match links with
  | [] => st
  | link :: rest =>
      forEach_setTimeout (S index) rest (setTimeout link (Z.of_nat index * 100) st)
  end.

Definition scanAllLinks (doc : list node) (st : page) : page :=
  forEach_setTimeout 0 (querySelectorAll_document st doc) st.

(** The links one added node hands to [analyzeLinkElement], in call order:
    the node itself when it is an [A] with a truthy [href], then its
    [a[href]] descendants. *)
Definition added_links (st : page) (n : node) : list elemId :=
  match n with
  | Element id _ =>
      (if bool_decide (tagName (get st id) = "A")
          && bool_decide (href_prop (get st id) ≠ EmptyString)
       then [id] else [])
      ++ querySelectorAll st n
  | OtherNode => []
  end.

Definition analyze_added (st : page) (n : node) : page :=
  foldl (fun st link => analyzeLinkElement_start link st) st (added_links st n).

(** The MutationObserver callback; a mutation record is its [addedNodes]. *)
Definition observer_callback (mutations : list (list node)) (st : page) : page :=
  foldl (fun st addedNodes => foldl analyze_added st addedNodes) st mutations.

(** The message listener's [rescanPage] branch. *)
Definition rescanPage (doc : list node) (st : page) : page :=
  scanAllLinks doc (set_analyzedLinks (fun _ => ∅) st).

(** The listener of [chrome.runtime.onMessage], called with
    [request.action] when the body of the document is [doc].  (Its answer
    to the sender is not modelled.) *)
Definition onMessage (action : string) (doc : list node) (st : page) : page :=
  if bool_decide (action = "rescanPage") then rescanPage doc st else st.

(** *** The event loop *)

(** The tasks the script sets up for itself once it is injected. *)
Inductive task :=
| TimerFires                               (* the clock reaches the next timer *)
| Mutation (mutations : list (list node))  (* the observer is called back *)
| Settles (k : nat) (o : fetch_outcome).   (* the k-th fetch settles *)

Definition run_task (t : task) (st : page) : page :=
  match t with
  | TimerFires =>
      match timers st with
      | [] => st
      | tm :: q =>
          analyzeLinkElement_start (timer_link tm)
            (set_now (Z.max (now st) (due tm)) (set_timers (fun _ => q) st))
      end
  | Mutation ms => observer_callback ms st
  | Settles k o => analyzeLinkElement_resume k o st
  end.

Definition run (ts : list task) (st : page) : page :=
  foldl (fun st t => run_task t st) st ts.

(** Everything the event loop can run on the page: one of these tasks, or
    the message listener, whenever the extension sends a message. *)
Inductive event :=
| Task (t : task)
| Message (action : string) (doc : list node).

Definition run_event (e : event) (st : page) : page :=
  match e with
  | Task t => run_task t st
  | Message action doc => onMessage action doc st
  end.

Definition run_events (es : list event) (st : page) : page :=
  foldl (fun st e => run_event e st) st es.

(** [initializeProtection], on a page whose elements are [els] and whose
    body is [doc]: the scan is scheduled; the observer and the click
    listener are the tasks and the handler below. *)
Definition initializeProtection (els : gmap elemId element) (doc : list node) : page :=
  scanAllLinks doc (fresh els).

(** *** The click gate *)

(** What a click listener of the page can do once it is called. *)
Inductive action :=
| Alert (msg : string)          (* alert(msg) *)
| RemoveModal (key : nat)       (* modal.remove() *)
| Navigate (url : string).      (* any assignment that loads [url] *)

Record button := mkButton {
  button_id : string;
  label : string;
  listeners : list (list action)
}.

(** A child of [document.body] that carries buttons: a warning modal with
    the three values its markup interpolates, or any element of the page
    (whose ids may collide with the modal's).  The values are the strings
    put into the markup, not what the parser makes of them: [buttons] are
    all the buttons of a modal only when none of the three has a [<]. *)
Record overlay := mkOverlay {
  key : nat;
  shown_score : string;
  shown_level : string;
  shown_url : string;
  buttons : list button
}.

(** The event being dispatched and the user-facing surface. *)
Record gate := mkGate {
  defaultPrevented : bool;
  propagationStopped : bool;
  body_children : list overlay;
  created : nat;                  (* elements created so far: the next key *)
  dialogs : list string           (* confirm() prompts shown, oldest first *)
}.

Definition M (A : Type) : Type := gate → A * gate.
Definition ret {A} (a : A) : M A := fun g => (a, g).
Definition bind {A B} (m : M A) (k : A → M B) : M B :=
  fun g => let '(a, g) := m g in k a g.

Declare Scope gate_scope.
Delimit Scope gate_scope with gate.
Notation "'let*' x ':=' m 'in' k" := (bind m (fun x => k))
  (at level 10, x name, m at level 100, k at level 200, only parsing) : gate_scope.
Notation "m ';;' k" := (bind m (fun _ => k))
  (at level 100, k at level 200, right associativity, only parsing) : gate_scope.

Definition preventDefault : M unit :=
  fun g => (tt, mkGate true (propagationStopped g) (body_children g) (created g) (dialogs g)).
Definition stopPropagation : M unit :=
  fun g => (tt, mkGate (defaultPrevented g) true (body_children g) (created g) (dialogs g)).

(** [confirm(msg)]: the prompt is shown and the user's answer returned. *)
Definition confirm (user : string → bool) (msg : string) : M bool :=
  fun g => (user msg,
            mkGate (defaultPrevented g) (propagationStopped g) (body_children g)
                   (created g) (dialogs g ++ [msg])).

Fixpoint listen_buttons (id : string) (h : list action) (bs : list button)
  : option (list button) :=
  match bs with
  | [] => None
  | b :: bs' =>
      if bool_decide (button_id b = id)
      then Some (mkButton (button_id b) (label b) (listeners b ++ [h]) :: bs')
      else cons b <$> listen_buttons id h bs'
  end.

(** [document.getElementById(id).addEventListener('click', h)]: the first
    element with that id in document order gets the listener. *)
Fixpoint addEventListener_byId (id : string) (h : list action) (os : list overlay)
  : list overlay :=
  match os with
  | [] => []
  | o :: os' =>
      match listen_buttons id h (buttons o) with
      | Some bs =>
          mkOverlay (key o) (shown_score o) (shown_level o) (shown_url o) bs :: os'
      | None => o :: addEventListener_byId id h os'
      end
  end.

(** [showWarningModal]: the modal is created, filled through [innerHTML]
    and appended to the body; then the two listeners are attached to
    whatever [getElementById] finds.  The buttons are those of the
    template, which is the element tree the parser builds when [level] and
    [url] open no tag ([score] is a number). *)
Definition showWarningModal (url : string) (score : jsnum) (level : string) : M unit :=
  fun g =>
    let k := created g in
    let modal :=
      mkOverlay k (jsnum_toString score) level url
                [mkButton "closeWarning" "Close" [];
                 mkButton "reportThreat" "Report Threat" []] in
    let children := body_children g ++ [modal] in
    let children := addEventListener_byId "closeWarning" [RemoveModal k] children in
    let children :=
      addEventListener_byId "reportThreat"
        [Alert "Thank you for reporting! This threat has been logged."; RemoveModal k]
        children in
    (tt, mkGate (defaultPrevented g) (propagationStopped g) children (S k) (dialogs g)).

Definition confirm_message (riskScore : jsnum) (riskLevel : string) : string :=
  "⚠️ WARNING: This link has been flagged as potentially dangerous." +:+ nl +:+ nl
  +:+ "Risk Score: " +:+ jsnum_toString riskScore +:+ "/100" +:+ nl
  +:+ "Risk Level: " +:+ riskLevel +:+ nl +:+ nl
  +:+ "Do you want to proceed anyway?".

(** The capturing click listener.  [closest] is
    [event.target.closest('a[href]')]; the result is the listener's return
    value ([None] for [undefined]). *)
Definition handleLinkClick (user : string → bool) (st : page) (closest : option elemId)
  : M (option bool) :=
  (match closest with
   | None => ret None
   | Some id =>
       let link := get st id in
       let riskScore := parseInt (or_default (data_risk_score link) "0") in
       let riskLevel := or_default (data_risk_level link) "UNKNOWN" in
       if ge riskScore 70 then
         preventDefault ;;
         stopPropagation ;;
         showWarningModal (href_prop link) riskScore riskLevel ;;
         ret (Some false)
       else if ge riskScore 40 then
         let* proceed := confirm user (confirm_message riskScore riskLevel) in
         if negb proceed then
           preventDefault ;;
           stopPropagation ;;
           ret (Some false)
         else ret None
       else ret None
   end)%gate.

(** The three outcomes of the gate, read off what the user was shown. *)
Inductive decision := ALLOW | WARN | DENY.

Definition decision_of (before after : gate) : decision :=
  if (length (body_children before) <? length (body_children after))%nat then DENY
  else if (length (dialogs before) <? length (dialogs after))%nat then WARN
  else ALLOW.

(** The gate's verdict on a click: run the listener and look. *)
Definition classify (user : string → bool) (st : page) (closest : option elemId)
                    (g : gate) : decision :=
  decision_of g (handleLinkClick user st closest g).2.

End Content.

(* ===================================================================== *)
(** ** extension/background.js                                            *)
(* ===================================================================== *)

Module Background.
Import JS.

Definition tabId := nat.

Record Stats := mkStats {
  urlsScanned : Z;
  threatsBlocked : Z;
  lastScan : option string
}.

Record notification := mkNotification {
  n_title : string;
  n_message : string;
  n_priority : option Z            (* [None]: the option is not passed *)
}.

(** The service worker and the browser state it acts on. *)
Record worker := mkWorker {
  stats : Stats;                        (* let stats = {...} *)
  storage_stats : option Stats;         (* chrome.storage.local, key 'stats' *)
  tabs : gmap tabId string;             (* the URL each tab shows *)
  notifications : list notification;    (* chrome.notifications.create calls *)
  fetched : list string;                (* URLs posted to /analyze/url *)
  console_error : list error
}.

Definition notify (n : notification) (w : worker) : worker :=
  mkWorker (stats w) (storage_stats w) (tabs w) (notifications w ++ [n])
           (fetched w) (console_error w).
Definition set_stats (s : Stats) (w : worker) : worker :=
  mkWorker s (storage_stats w) (tabs w) (notifications w) (fetched w) (console_error w).
Definition storage_set (w : worker) : worker :=
  mkWorker (stats w) (Some (stats w)) (tabs w) (notifications w) (fetched w)
           (console_error w).
Definition tabs_update (t : tabId) (url : string) (w : worker) : worker :=
  mkWorker (stats w) (storage_stats w) (<[t := url]> (tabs w)) (notifications w)
           (fetched w) (console_error w).
Definition log_error (x : error) (w : worker) : worker :=
  mkWorker (stats w) (storage_stats w) (tabs w) (notifications w) (fetched w)
           (console_error w ++ [x]).

(** The locals [emoji] and [priority] of [showNotification]. *)
Definition notification_tier (score : jsscore) : string * Z :=
  if ge (ToNumber score) 70 then ("🚨", 2)
  else if ge (ToNumber score) 40 then ("⚠️", 1)
  else ("✅", 0).

Definition showNotification (score : jsscore) (risk_level recommendation : jsval)
                            (w : worker) : worker :=
  let '(emoji, priority) := notification_tier score in
  notify (mkNotification
            (emoji +:+ " " +:+ ToString risk_level)
            ("Risk Score: " +:+ score_toString score +:+ "/100" +:+ nl
               +:+ ToString recommendation)
            (Some priority)) w.

Definition threat_blocked (score : jsscore) : notification :=
  mkNotification "🚨 THREAT BLOCKED"
    ("High-risk URL detected and blocked!" +:+ nl +:+ "Risk Score: "
       +:+ score_toString score +:+ "/100")
    (Some 2).

Definition analysis_failed : notification :=
  mkNotification "Analysis Failed" "Could not connect to fraud detection server." None.

(** The [catch] block of [analyzeURL]. *)
Definition catch (x : error) (w : worker) : worker :=
  notify analysis_failed (log_error x w).

(** [analyzeURL] up to its first [await]: the request is sent, whatever
    was analysed before. *)
Definition analyzeURL_start (url : string) (w : worker) : worker :=
  mkWorker (stats w) (storage_stats w) (tabs w) (notifications w)
           (fetched w ++ [url]) (console_error w).

(** [analyzeURL] after the [await]s.  [tab] is [None] when the caller has
    no tab to pass; [timestamp] is [new Date().toISOString()]. *)
Definition analyzeURL_resume (tab : option tabId) (timestamp : string)
                             (o : fetch_outcome) (w : worker) : worker :=
  match o with
  | Rejected => catch NetworkError w
  | Responded _ NotJson => catch SyntaxError w
  | Responded _ (Json JNull) =>
      (* stats.urlsScanned++ has run when result.risk_score throws *)
      let s := stats w in
      catch TypeError
        (set_stats (mkStats (urlsScanned s + 1) (threatsBlocked s) (lastScan s)) w)
  | Responded _ (Json (JObject score level recommendation)) =>
      let s := stats w in
      let s := mkStats (urlsScanned s + 1) (threatsBlocked s) (lastScan s) in
      let s := if ge (ToNumber score) 70
               then mkStats (urlsScanned s) (threatsBlocked s + 1) (lastScan s)
               else s in
      let s := mkStats (urlsScanned s) (threatsBlocked s) (Some timestamp) in
      let w := storage_set (set_stats s w) in
      let w := showNotification score level recommendation w in
      if ge (ToNumber score) 70 then
        match tab with
        | Some t => notify (threat_blocked score) (tabs_update t "about:blank" w)
        | None => catch TypeError w
        end
      else w
  end.


End Background.

(* ===================================================================== *)
(** ** Vocabulary of the statements                                       *)
(* ===================================================================== *)

Module Props.
Import JS Content.

(** URLs some click listener among [os] would load. *)
Definition handler_navigations (h : list action) : list string :=
  flat_map (fun a => match a with Navigate u => [u] | _ => [] end) h.
Definition button_navigations (b : button) : list string :=
  flat_map handler_navigations (listeners b).
Definition navigations (os : list overlay) : list string :=
  flat_map (fun o => flat_map button_navigations (buttons o)) os.

(** A listener that only dismisses modal [k] or acknowledges a report. *)
Definition dismiss_or_report (k : nat) (h : list action) : Prop :=
  Forall (fun a => a = RemoveModal k ∨ ∃ msg, a = Alert msg) h.

(** [m] is the warning modal number [k] for these three values: two
    buttons, Close and Report Threat, whose listeners (if any) dismiss it
    or acknowledge a report. *)
Definition warning_modal (k : nat) (url score level : string) (m : overlay) : Prop :=
  key m = k ∧ shown_url m = url ∧ shown_score m = score ∧ shown_level m = level
  ∧ button_id <$> buttons m = ["closeWarning"; "reportThreat"]
  ∧ label <$> buttons m = ["Close"; "Report Threat"]
  ∧ Forall (fun b => Forall (dismiss_or_report k) (listeners b)) (buttons m).

(** [o'] is [o] after a listener [h] may have been added to one of its
    buttons: same key, texts, ids and labels; listeners that satisfy a
    property [h] has still do; no new way to navigate if [h] has none. *)
Definition similar (h : list action) (o o' : overlay) : Prop :=
  key o' = key o ∧ shown_score o' = shown_score o
  ∧ shown_level o' = shown_level o ∧ shown_url o' = shown_url o
  ∧ button_id <$> buttons o' = button_id <$> buttons o
  ∧ label <$> buttons o' = label <$> buttons o
  ∧ (∀ P : list action → Prop,
       P h → Forall (fun b => Forall P (listeners b)) (buttons o) →
       Forall (fun b => Forall P (listeners b)) (buttons o'))
  ∧ (handler_navigations h = [] →
     flat_map button_navigations (buttons o') = flat_map button_navigations (buttons o)).

(** No element of the page already uses one of the modal's two ids. *)
Definition ids_free (os : list overlay) : Prop :=
  Forall (fun o => Forall (fun b => button_id b ≠ "closeWarning"
                                    ∧ button_id b ≠ "reportThreat") (buttons o)) os.

(** The modal as [showWarningModal] leaves it on such a page. *)
Definition the_modal (k : nat) (url score level : string) : overlay :=
  mkOverlay k score level url
    [mkButton "closeWarning" "Close" [[RemoveModal k]];
     mkButton "reportThreat" "Report Threat"
       [[Alert "Thank you for reporting! This threat has been logged."; RemoveModal k]]].

(** [analyzeLinkElement] called on each of [ls] in turn. *)
Definition analyze_all (ls : list elemId) (st : page) : page :=
  foldl (fun st l => analyzeLinkElement_start l st) st ls.

(** The requests issued for [u]. *)
Definition requested (u : string) (rs : list request) : list request :=
  List.filter (fun r => bool_decide (req_url r = u)) rs.
Definition dispatched (u : string) (st : page) : list request :=
  requested u (requests st).

(** The positions, from [k] on, of the requests for [u] that have not
    settled: the requests outstanding for [u]. *)
Fixpoint unsettled (u : string) (done : gset nat) (k : nat) (rs : list request)
  : list nat :=
  match rs with
  | [] => []
  | r :: rs' =>
      (if bool_decide (req_url r = u) && bool_decide (k ∉ done) then [k] else [])
      ++ unsettled u done (S k) rs'
  end.
Definition outstanding (u : string) (st : page) : list nat :=
  unsettled u (settled st) 0 (requests st).

(** The index and the requests agree: no URL was requested twice, and a
    URL is registered exactly when a request was issued for it. *)
Definition index_ok (st : page) : Prop :=
  NoDup (req_url <$> requests st)
  ∧ ∀ u, u ∈ analyzedLinks st ↔ u ∈ req_url <$> requests st.

(** Two pages whose elements have the same tags and hrefs. *)
Definition same_links (st st' : page) : Prop :=
  ∀ i, tagName (get st' i) = tagName (get st i) ∧ href (get st' i) = href (get st i).

(** The requests a staggered scan of [links] issues, slot by slot, when
    [seen] is already registered and the first slot has number [index]:
    a link whose URL is registered or is not http(s) leaves its slot
    empty. *)
Fixpoint staggered (st : page) (seen : gset string) (index : nat)
                   (links : list elemId) : list request :=
  match links with
  | [] => []
  | l :: rest =>
      let u := href_prop (get st l) in
      if bool_decide (u ∈ seen) || negb (http_or_https u)
      then staggered st seen (S index) rest
      else mkRequest (Z.of_nat index * 100) u l
             :: staggered st (seen ∪ {[u]}) (S index) rest
  end.

(** The timers a scan of [links] leaves, first slot [index]. *)
Definition slots (index : nat) (links : list elemId) : list timer :=
  imap (fun j l => mkTimer (Z.of_nat (index + j) * 100) l) links.

(** The reading of the stagger rule that numbers the requests: the [i]-th
    request the scan issues goes out at [i * 100]. *)
Definition ith_request_at_ith_slot (els : gmap elemId element) (doc : list node) : Prop :=
  let n := length (querySelectorAll_document (fresh els) doc) in
  let st := run (replicate n TimerFires) (initializeProtection els doc) in
  ∀ i r, requests st !! i = Some r → req_time r = Z.of_nat i * 100.

(** Each scanned link is waiting for its timer, or has been through
    [analyzeLinkElement] (and is registered if its URL is http(s)). *)
Definition scan_progress (st0 : page) (links : list elemId) (st : page) : Prop :=
  ∀ l, l ∈ links →
       l ∈ timer_link <$> timers st
       ∨ (http_or_https (href_prop (get st0 l)) = true →
          href_prop (get st0 l) ∈ analyzedLinks st).

(** RiskThresholds as the specification lists them: BLOCK = 70,
    WARN = 40, INFO = 20, SAFE below. *)
Inductive tier := TierBlock | TierWarn | TierInfo | TierSafe.

Definition spec_tier (s : Z) : tier :=
  if 70 <=? s then TierBlock
  else if 40 <=? s then TierWarn
  else if 20 <=? s then TierInfo
  else TierSafe.

(** The reading of the annotation rule that gives every tier a border and
    background of its own. *)
Definition distinct_style_per_tier : Prop :=
  ∀ (e : element) (level : jsval) (s1 s2 : Z),
    spec_tier s1 ≠ spec_tier s2 →
    let e1 := addRiskIndicator (SInt s1) level e in
    let e2 := addRiskIndicator (SInt s2) level e in
    (style_border e1, style_backgroundColor e1)
    ≠ (style_border e2, style_backgroundColor e2).


Definition is_settlement (t : task) : bool :=
  match t with Settles _ _ => true | _ => false end.

(** The links a mutation callback is handed, in call order. *)
Definition delivered (st : page) (mutations : list (list node)) : list elemId :=
  flat_map (flat_map (added_links st)) mutations.

(** [inside l n]: the element [l] is the node [n] or lies below it,
    whatever lies in between. *)
Inductive inside (l : elemId) : node → Prop :=
| inside_root ch : inside l (Element l ch)
| inside_child id ch c : c ∈ ch → inside l c → inside l (Element id ch).

(** A [rescanPage] message. *)
Definition is_rescan (e : event) : bool :=
  match e with
  | Message action _ => bool_decide (action = "rescanPage")
  | Task _ => false
  end.

Definition rescans (es : list event) : nat := length (List.filter is_rescan es).

(** The body the last scan went through: that of the last [rescanPage]
    message, or the one the page was loaded with. *)
Fixpoint last_scanned (es : list event) (doc : list node) : list node :=
  match es with
  | [] => doc
  | Message action doc' :: es' =>
      last_scanned es' (if bool_decide (action = "rescanPage") then doc' else doc)
  | Task _ :: es' => last_scanned es' doc
  end.

(** How many requests had been issued when the index was last emptied,
    [n] if it is not emptied in the course of [es]. *)
Fixpoint last_emptied (es : list event) (st : page) (n : nat) : nat :=
  match es with
  | [] => n
  | e :: es' =>
      last_emptied es' (run_event e st) (if is_rescan e then length (requests st) else n)
  end.

(** The requests issued since the index was last emptied (since the page
    was loaded, when no [rescanPage] message has come). *)
Definition recent (es : list event) (st0 : page) : list request :=
  drop (last_emptied es st0 0) (requests (run_events es st0)).

(** The index and the requests issued from the [n]-th on agree. *)
Definition index_ok_since (n : nat) (st : page) : Prop :=
  (n <= length (requests st))%nat
  ∧ NoDup (req_url <$> drop n (requests st))
  ∧ ∀ u, u ∈ analyzedLinks st ↔ u ∈ req_url <$> drop n (requests st).

(** The reading of the dedup rule that lets no URL ever have two requests
    outstanding, whatever happens on the page. *)
Definition one_outstanding_per_url : Prop :=
  ∀ (els : gmap elemId element) (doc : list node) (es : list event) (u : string),
    (length (outstanding u (run_events es (initializeProtection els doc))) <= 1)%nat.

End Props.

(** Pages and clicks the statements are tried on. *)
Module Examples.
Import JS Content.

Definition anchor (url : string) : element := plain "A" (Some url).
Definition annotated (url score level : string) : element :=
  mkElement "A" (Some url) (Some score) (Some level) None None None [].

Definition untouched_event : gate := mkGate false false [] 0 [].
Definition yes (_ : string) : bool := true.
Definition no (_ : string) : bool := false.

Definition page_with (e : element) : page := fresh {[ 1%nat := e ]}.

(** A body with a mail link, the same link twice, and another one. *)
Definition els : gmap elemId element :=
  {[ 0%nat := anchor "mailto:x@y.z"; 1%nat := anchor "http://a/";
     2%nat := anchor "http://a/"; 3%nat := anchor "https://b/";
     4%nat := plain "DIV" None ]}.
Definition doc : list node :=
  [Element 4%nat [Element 0%nat []; Element 1%nat [OtherNode]; Element 2%nat []];
   Element 3%nat []].

(** A body with an SVG anchor in front of an HTML anchor. *)
Definition svg_anchor (target : string) : element := plain "a" (Some target).
Definition svg_els : gmap elemId element :=
  {[ 0%nat := svg_anchor "http://s/"; 1%nat := anchor "http://a/";
     2%nat := plain "svg" None ]}.
Definition svg_doc : list node :=
  [Element 2%nat [Element 0%nat []]; Element 1%nat []].

End Examples.

(* ===================================================================== *)
(** ** The rest of the two scripts                                        *)
(* ===================================================================== *)

(** The click listeners of the warning modal (content.js, the end of
    [showWarningModal]) as the user triggers them. *)
Module Surface.
Import JS Content.

(** What a click on a button leaves behind: the page, the [alert] boxes
    shown and the URLs loaded, oldest first. *)
Record outcome := mkOutcome {
  gate_after : gate;
  alerts : list string;
  loads : list string
}.

(** [node.remove()] on the child of [document.body] with key [k]. *)
Definition remove_child (k : nat) (os : list overlay) : list overlay :=
  List.filter (fun o => negb (key o =? k)%nat) os.

Definition run_action (r : outcome) (a : action) : outcome :=
  match a with
  | Alert msg => mkOutcome (gate_after r) (alerts r ++ [msg]) (loads r)
  | RemoveModal k =>
      let g := gate_after r in
      mkOutcome (mkGate (defaultPrevented g) (propagationStopped g)
                        (remove_child k (body_children g)) (created g) (dialogs g))
                (alerts r) (loads r)
  | Navigate u => mkOutcome (gate_after r) (alerts r) (loads r ++ [u])
  end.

(** A click on the [j]-th button of the [i]-th child of the body: the
    listeners the button has at that moment run in the order they were
    added. *)
Definition click_button (i j : nat) (g : gate) : outcome :=
  match body_children g !! i with
  | Some o =>
      match buttons o !! j with
      | Some b => foldl (foldl run_action) (mkOutcome g [] []) (listeners b)
      | None => mkOutcome g [] []
      end
  | None => mkOutcome g [] []
  end.

(** The children of the body all have keys below the next one. *)
Definition keys_below (g : gate) : Prop :=
  Forall (fun o => (key o < created g)%nat) (body_children g).

End Surface.

(** background.js: the stored counters, the text analysis and the order in
    which requests are sent and answered. *)
Module Coordinator.
Import JS Background.

(** [let stats = { urlsScanned: 0, threatsBlocked: 0, lastScan: null }]. *)
Definition initial_stats : Stats := mkStats 0 0 None.

(** The callback of [chrome.storage.local.get(['stats'], ...)]: a stored
    snapshot replaces the counters as a whole. *)
Definition stats_loaded (w : worker) : worker :=
  match storage_stats w with
  | Some s => set_stats s w
  | None => w
  end.

(** [analyzeText] after its [await]s: the result is shown; an error is only
    logged. *)
Definition analyzeText_resume (o : fetch_outcome) (w : worker) : worker :=
  match o with
  | Rejected => log_error NetworkError w
  | Responded _ NotJson => log_error SyntaxError w
  | Responded _ (Json JNull) => log_error TypeError w
  | Responded _ (Json (JObject score level recommendation)) =>
      showNotification score level recommendation w
  end.

(** What happens in the worker, in order: a URL analysis is started, a URL
    analysis is answered, a text analysis is answered, the stored counters
    arrive. *)
Inductive event :=
| Requested (url : string)
| Answered (tab : option tabId) (timestamp : string) (o : fetch_outcome)
| TextAnswered (o : fetch_outcome)
| StatsLoaded.

Definition step (w : worker) (e : event) : worker :=
  match e with
  | Requested url => analyzeURL_start url w
  | Answered tab timestamp o => analyzeURL_resume tab timestamp o w
  | TextAnswered o => analyzeText_resume o w
  | StatsLoaded => stats_loaded w
  end.

Definition run (es : list event) (w : worker) : worker := foldl step w es.

(** The answers that reach [stats.urlsScanned++]: those whose body parsed. *)
Definition counted (e : event) : bool :=
  match e with
  | Answered _ _ (Responded _ (Json _)) => true
  | _ => false
  end.

(** The answers that reach [stats.threatsBlocked++]. *)
Definition threat (e : event) : bool :=
  match e with
  | Answered _ _ (Responded _ (Json (JObject score _ _))) => ge (ToNumber score) 70
  | _ => false
  end.

Definition is_load (e : event) : bool :=
  match e with StatsLoaded => true | _ => false end.

Definition bump (b : bool) : Z := if b then 1 else 0.

Definition tally (f : event → bool) (es : list event) : Z :=
  Z.of_nat (length (List.filter f es)).

End Coordinator.

(** popup.js: the glyph and the colour [displayResult] picks. *)
Module Popup.
Import JS.

(** The locals [emojiIcon] and [color] of [displayResult]. *)
Definition displayResult_tier (score : jsscore) : string * string :=
  if ge (ToNumber score) 70 then ("🚨", "#ef4444")
  else if ge (ToNumber score) 40 then ("⚠️", "#f59e0b")
  else if ge (ToNumber score) 20 then ("ℹ️", "#3b82f6")
  else ("✅", "#10b981").

End Popup.

(** More vocabulary. *)
Module More.
Import JS Content.

(** The outcomes that end in the [catch] block of [analyzeLinkElement]
    and of [analyzeURL]: a rejected [fetch], a body that is not JSON, and
    the body [null]. *)
Definition caught (o : fetch_outcome) : option error :=
  match o with
  | Rejected => Some NetworkError
  | Responded _ NotJson => Some SyntaxError
  | Responded _ (Json JNull) => Some TypeError
  | Responded _ (Json (JObject _ _ _)) => None
  end.

(** A request issued [t0] later. *)
Definition delay (t0 : Z) (r : request) : request :=
  mkRequest (t0 + req_time r) (req_url r) (req_link r).

(** A timer due [t0] later. *)
Definition later (t0 : Z) (tm : timer) : timer :=
  mkTimer (t0 + due tm) (timer_link tm).

(** What the script has written to an element. *)
Definition annotation (e : element)
  : option string * option string * option string * option string
    * option string * list string :=
  (data_risk_score e, data_risk_level e, style_border e, style_backgroundColor e,
   title e, badges e).

(** The href of each request is that of its link, and an element without
    a request is as the page delivered it. *)
Definition links_ok (st0 st : page) : Prop :=
  (∀ r, r ∈ requests st → req_url r = href_prop (get st0 (req_link r)))
  ∧ (∀ l, l ∉ req_link <$> requests st → get st l = get st0 l).

End More.

(* ===================================================================== *)
(** ** Numerals: printing a score and reading it back                     *)
(* ===================================================================== *)

Section Numerals.
Import JS.

Lemma is_dec_bounds c : is_dec c = true → 48 <= byte c <= 57.
Proof. unfold is_dec. intros [H1 H2]%andb_prop. lia. Qed.

Lemma byte_digit_char d : 0 <= d < 10 → byte (digit_char d) = 48 + d.
Proof.
  intros Hd. unfold byte, digit_char.
  rewrite nat_ascii_embedding by lia. lia.
Qed.

Lemma is_dec_digit_char d : 0 <= d < 10 → is_dec (digit_char d) = true.
Proof.
  intros Hd. unfold is_dec. rewrite byte_digit_char by done.
  apply andb_true_intro. split; lia.
Qed.

Lemma trim_start_dec c r : is_dec c = true → trim_start (String c r) = String c r.
Proof.
  intros Hc%is_dec_bounds.
  assert (H1 : is_ws1 c = false).
  { unfold is_ws1. cbv zeta.
    destruct (Z.leb_spec 9 (byte c)), (Z.leb_spec (byte c) 13),
      (Z.eqb_spec (byte c) 32); simpl; lia || done. }
  assert (H2 : ∀ c2, is_ws2 c c2 = false).
  { intros c2. unfold is_ws2. destruct (Z.eqb_spec (byte c) 194); [lia | done]. }
  assert (H3 : ∀ c2 c3, is_ws3 c c2 c3 = false).
  { intros c2 c3. unfold is_ws3.
    destruct (Z.eqb_spec (byte c) 225), (Z.eqb_spec (byte c) 226),
      (Z.eqb_spec (byte c) 227), (Z.eqb_spec (byte c) 239); lia || done. }
  simpl. rewrite H1. destruct r as [|c2 [|c3 r]]; [done | by rewrite H2 |].
  by rewrite H2, H3.
Qed.

Lemma read_sign_dec c r : is_dec c = true → read_sign (String c r) = (1, String c r).
Proof.
  destruct c as [[] [] [] [] [] [] [] []]; intros H; try discriminate H; reflexivity.
Qed.

Lemma read_radix_nonzero c r :
  is_dec c = true → c ≠ "0"%char → read_radix (String c r) = (10, String c r).
Proof.
  destruct c as [[] [] [] [] [] [] [] []]; intros H Hne;
    try discriminate H; try reflexivity.
  by destruct Hne.
Qed.

Lemma read_radix_zero c r :
  is_dec c = true →
  read_radix (String "0" (String c r)) = (10, String "0" (String c r)).
Proof.
  destruct c as [[] [] [] [] [] [] [] []]; intros H; try discriminate H; reflexivity.
Qed.

Lemma radix_digit_dec c : is_dec c = true → radix_digit 10 c = Some (byte c - 48).
Proof.
  intros H. pose proof (is_dec_bounds _ H) as Hb.
  unfold radix_digit, digit_val. cbv zeta. unfold is_dec in H. rewrite H.
  destruct (Z.ltb_spec (byte c - 48) 10); [done | lia].
Qed.

Lemma starts_with_digit_dec c r :
  is_dec c = true → starts_with_digit 10 (String c r) = true.
Proof.
  intros H. simpl. rewrite radix_digit_dec by done. by apply bool_decide_eq_true.
Qed.

Lemma string_of_digits_cons d ds :
  string_of_chars (digit_char <$> d :: ds)
  = String (digit_char d) (string_of_chars (digit_char <$> ds)).
Proof. reflexivity. Qed.

(** Reading a string of decimal digits accumulates them in base ten. *)
Lemma parse_digits_decimal ds acc :
  Forall (λ d, 0 <= d < 10) ds →
  parse_digits 10 (string_of_chars (digit_char <$> ds)) acc
  = fold_left (λ a d, a * 10 + d) ds acc.
Proof.
  intros H. revert acc. induction H as [|d ds Hd _ IH]; intros acc; [done |].
  rewrite string_of_digits_cons. cbn [parse_digits fold_left].
  rewrite radix_digit_dec by by apply is_dec_digit_char.
  rewrite byte_digit_char by done. rewrite IH. f_equal. lia.
Qed.

Lemma rev_digits_range fuel n :
  0 <= n → Forall (λ d, 0 <= d < 10) (rev_digits fuel n).
Proof.
  revert n. induction fuel as [|f IH]; intros n Hn; simpl.
  - repeat constructor; apply Z.mod_pos_bound; lia.
  - constructor; [apply Z.mod_pos_bound; lia |].
    destruct (n <? 10); [constructor | apply IH, Z.div_pos; lia].
Qed.

Lemma rev_digits_value fuel n :
  0 <= n < 10 ^ Z.of_nat (S fuel) →
  fold_right (λ d a, a * 10 + d) 0 (rev_digits fuel n) = n.
Proof.
  revert n. induction fuel as [|f IH]; intros n Hn.
  - simpl. change (10 ^ Z.of_nat 1) with 10 in Hn. rewrite Z.mod_small; lia.
  - cbn [rev_digits fold_right]. destruct (Z.ltb_spec n 10) as [Hlt | Hge].
    + simpl. rewrite Z.mod_small; lia.
    + rewrite IH.
      * pose proof (Z.div_mod n 10). lia.
      * split; [apply Z.div_pos; lia |].
        apply Z.div_lt_upper_bound; [lia |].
        rewrite Nat2Z.inj_succ, Z.pow_succ_r in Hn by lia. lia.
Qed.

Lemma rev_digits_nonempty fuel n : rev_digits fuel n ≠ [].
Proof. by destruct fuel. Qed.

Lemma log2_fuel n : 0 <= n → n < 10 ^ Z.of_nat (S (Z.to_nat (Z.log2 n))).
Proof.
  intros Hn. destruct (decide (n = 0)) as [-> | Hne]; [done |].
  pose proof (Z.log2_nonneg n).
  rewrite Nat2Z.inj_succ, Z2Nat.id by done.
  pose proof (Z.log2_spec n ltac:(lia)) as [_ Hup].
  eapply Z.lt_le_trans; [exact Hup |].
  apply Z.pow_le_mono_l. lia.
Qed.

(** A numeral is a non-empty string of decimal digits; it reads as itself. *)
Lemma parseInt_nat_digits n : 0 <= n → parseInt (nat_digits n) = Num n.
Proof.
  intros Hn. unfold nat_digits.
  set (f := Z.to_nat (Z.log2 n)).
  pose proof (rev_digits_range f n Hn) as Hr.
  pose proof (rev_digits_value f n (conj Hn (log2_fuel n Hn))) as Hv.
  pose proof (rev_digits_nonempty f n) as Hne.
  apply Forall_rev in Hr. rewrite <- (rev_involutive (rev_digits f n)) in Hv.
  rewrite fold_left_rev_right in Hv.
  assert (Hne' : rev (rev_digits f n) ≠ []).
  { intros E. apply Hne. by rewrite <- (rev_involutive (rev_digits f n)), E. }
  destruct (rev (rev_digits f n)) as [|d ds]; [done |].
  apply Forall_cons in Hr as Hr'. destruct Hr' as [Hd Hds].
  assert (Hp : parse_digits 10 (string_of_chars (digit_char <$> d :: ds)) 0 = n).
  { rewrite parse_digits_decimal by done. exact Hv. }
  unfold parseInt. rewrite string_of_digits_cons in *.
  rewrite trim_start_dec, read_sign_dec by by apply is_dec_digit_char.
  assert (Hrad : read_radix (String (digit_char d) (string_of_chars (digit_char <$> ds)))
                 = (10, String (digit_char d) (string_of_chars (digit_char <$> ds)))).
  { destruct (decide (digit_char d = "0"%char)) as [E | E].
    - rewrite E. destruct ds as [|d' ds']; [done |].
      apply Forall_cons in Hds as [Hd' _].
      apply read_radix_zero. by apply is_dec_digit_char.
    - apply read_radix_nonzero; [by apply is_dec_digit_char | done]. }
  cbv beta iota.
  rewrite Hrad, starts_with_digit_dec by by apply is_dec_digit_char.
  rewrite Hp. f_equal. lia.
Qed.

(** Round trip: the attribute written for an integer score parses back to
    that score. *)
Lemma parseInt_Number_toString n : parseInt (Number_toString n) = Num n.
Proof.
  unfold Number_toString. destruct (Z.ltb_spec n 0) as [Hneg | Hpos];
    [| by apply parseInt_nat_digits].
  pose proof (parseInt_nat_digits (- n) ltac:(lia)) as H.
  unfold nat_digits in *.
  pose proof (rev_digits_nonempty (Z.to_nat (Z.log2 (- n))) (- n)) as Hne.
  pose proof (rev_digits_range (Z.to_nat (Z.log2 (- n))) (- n) ltac:(lia)) as Hr.
  apply Forall_rev in Hr.
  assert (Hne' : rev (rev_digits (Z.to_nat (Z.log2 (- n))) (- n)) ≠ []).
  { intros E. apply Hne.
    by rewrite <- (rev_involutive (rev_digits _ (- n))), E. }
  destruct (rev (rev_digits (Z.to_nat (Z.log2 (- n))) (- n))) as [|d ds]; [done |].
  apply Forall_cons in Hr as [Hd _].
  rewrite string_of_digits_cons in *.
  set (r := string_of_chars (digit_char <$> ds)) in *.
  unfold parseInt in *.
  assert (Htrim : trim_start ("-" +:+ String (digit_char d) r)
                  = String "-" (String (digit_char d) r)).
  { pose proof (is_dec_bounds _ (is_dec_digit_char d Hd)) as Hb.
    simpl. unfold is_ws2.
    destruct r as [|c3 r']; [done |]. done. }
  rewrite Htrim. cbn [read_sign]. cbv beta iota.
  rewrite trim_start_dec, read_sign_dec in H by by apply is_dec_digit_char.
  cbv beta iota in H.
  destruct (read_radix (String (digit_char d) r)) as [R S2].
  destruct (starts_with_digit R S2); [| done].
  injection H as H. f_equal. lia.
Qed.

Lemma Number_toString_nonempty n : Number_toString n ≠ EmptyString.
Proof.
  unfold Number_toString, nat_digits. destruct (n <? 0); [done |].
  pose proof (rev_digits_nonempty (Z.to_nat (Z.log2 n)) n) as Hne.
  destruct (rev (rev_digits (Z.to_nat (Z.log2 n)) n)) as [|d ds] eqn:E; [| done].
  apply (f_equal (@rev Z)) in E. rewrite rev_involutive in E. done.
Qed.
End Numerals.

(* ===================================================================== *)
(** ** The click gate                                                     *)
(* ===================================================================== *)

Section Gate.
Import JS Content.

Variable user : string → bool.
Variable st : page.
Variable id : elemId.

Let link := get st id.
Let riskScore := parseInt (or_default (data_risk_score link) "0").
Let riskLevel := or_default (data_risk_level link) "UNKNOWN".

(** The three branches of the listener, by the two comparisons it makes. *)
Lemma gate_deny g :
  ge riskScore 70 = true →
  handleLinkClick user st (Some id) g
  = (Some false,
     (showWarningModal (href_prop link) riskScore riskLevel
        (mkGate true true (body_children g) (created g) (dialogs g))).2).
Proof.
  intros H. unfold handleLinkClick, bind. fold link riskScore riskLevel.
  rewrite H. reflexivity.
Qed.

Lemma gate_warn g :
  ge riskScore 70 = false → ge riskScore 40 = true →
  handleLinkClick user st (Some id) g
  = let msg := confirm_message riskScore riskLevel in
    if user msg
    then (None, mkGate (defaultPrevented g) (propagationStopped g)
                       (body_children g) (created g) (dialogs g ++ [msg]))
    else (Some false, mkGate true true (body_children g) (created g)
                             (dialogs g ++ [msg])).
Proof.
  intros H70 H40. unfold handleLinkClick, bind. fold link riskScore riskLevel.
  rewrite H70, H40. cbn. by destruct (user _).
Qed.

Lemma gate_allow g :
  ge riskScore 40 = false →
  handleLinkClick user st (Some id) g = (None, g).
Proof.
  intros H40. unfold handleLinkClick, bind. fold link riskScore riskLevel.
  assert (H70 : ge riskScore 70 = false).
  { destruct riskScore as [|n]; [done |]. simpl in *. lia. }
  by rewrite H70, H40.
Qed.

Lemma length_addEventListener_byId i h os :
  length (addEventListener_byId i h os) = length os.
Proof.
  induction os as [|o os IH]; [done |]. simpl.
  destruct (listen_buttons i h (buttons o)); simpl; congruence.
Qed.

Lemma length_showWarningModal url score level g :
  length (body_children (showWarningModal url score level g).2)
  = S (length (body_children g)).
Proof.
  simpl. rewrite !length_addEventListener_byId, length_app. simpl. lia.
Qed.

Lemma dialogs_showWarningModal url score level g :
  dialogs (showWarningModal url score level g).2 = dialogs g.
Proof. done. Qed.

Lemma classify_deny g : ge riskScore 70 = true → classify user st (Some id) g = DENY.
Proof.
  intros H. unfold classify, decision_of. rewrite gate_deny by done.
  cbn [snd]. rewrite length_showWarningModal. cbn [body_children].
  by rewrite (proj2 (Nat.ltb_lt _ _)) by lia.
Qed.

Lemma classify_warn g :
  ge riskScore 70 = false → ge riskScore 40 = true →
  classify user st (Some id) g = WARN.
Proof.
  intros H70 H40. unfold classify, decision_of. rewrite gate_warn by done.
  cbv zeta. destruct (user _); cbn [snd body_children dialogs];
    rewrite Nat.ltb_irrefl, length_app; cbn [length];
    by rewrite (proj2 (Nat.ltb_lt _ _)) by lia.
Qed.

Lemma classify_allow g : ge riskScore 40 = false → classify user st (Some id) g = ALLOW.
Proof.
  intros H. unfold classify, decision_of. rewrite gate_allow by done.
  cbn [snd]. by rewrite !Nat.ltb_irrefl.
Qed.

(** The score the listener reads from an element annotated with [s]. *)
Lemma riskScore_annotated s :
  data_risk_score link = Some (Number_toString s) → riskScore = Num s.
Proof.
  intros H. unfold riskScore. rewrite H.
  pose proof (Number_toString_nonempty s) as Hne.
  unfold or_default. destruct (Number_toString s) eqn:E; [done |].
  rewrite <- E. apply parseInt_Number_toString.
Qed.

Lemma riskScore_absent : data_risk_score link = None → riskScore = Num 0.
Proof. intros H. unfold riskScore. by rewrite H. Qed.

End Gate.

Section GateClaims.
Import JS Content Props.

Lemma ge_Num n k : ge (Num n) k = true ↔ k <= n.
Proof. simpl. apply Z.leb_le. Qed.

Lemma ge_Num_false n k : ge (Num n) k = false ↔ n < k.
Proof. simpl. apply Z.leb_gt. Qed.

(** The verdict on a link annotated with [s]. *)
Lemma classify_annotated user st id g s :
  data_risk_score (get st id) = Some (Number_toString s) →
  classify user st (Some id) g
  = if 70 <=? s then DENY else if 40 <=? s then WARN else ALLOW.
Proof.
  intros Hattr. pose proof (riskScore_annotated st id s Hattr) as Hscore.
  destruct (Z.leb_spec 70 s) as [H70 | H70].
  { apply classify_deny. rewrite Hscore. apply ge_Num. lia. }
  destruct (Z.leb_spec 40 s) as [H40 | H40].
  - apply classify_warn; rewrite Hscore; [apply ge_Num_false | apply ge_Num]; lia.
  - apply classify_allow. rewrite Hscore. apply ge_Num_false. lia.
Qed.

End GateClaims.


(* ===================================================================== *)
(** ** The link index and the event loop                                  *)
(* ===================================================================== *)

Section Index.
Import JS Content Props.

(** [analyzeLinkElement] either returns at once, or registers the URL and
    issues one request stamped with the current time. *)
Lemma start_cases l st :
  let url := href_prop (get st l) in
  ((url ∈ analyzedLinks st ∨ http_or_https url = false)
   ∧ analyzeLinkElement_start l st = st)
  ∨ ((url ∉ analyzedLinks st) ∧ http_or_https url = true
     ∧ analyzeLinkElement_start l st
       = mkPage (analyzedLinks st ∪ {[url]}) (now st) (timers st)
                (requests st ++ [mkRequest (now st) url l]) (settled st)
                (elements st) (console_error st)).
Proof.
  intros url. subst url. unfold analyzeLinkElement_start, href_prop.
  destruct (href_of (get st l)) as [url|]; [| left; split; [by right | done]].
  case_bool_decide as Hin; [left; auto |].
  unfold http_or_https.
  destruct (startsWith url "http://"), (startsWith url "https://"); simpl;
    (left; split; [by right | done]) || (right; done).
Qed.

Lemma start_frame l st :
  elements (analyzeLinkElement_start l st) = elements st
  ∧ now (analyzeLinkElement_start l st) = now st
  ∧ timers (analyzeLinkElement_start l st) = timers st
  ∧ settled (analyzeLinkElement_start l st) = settled st
  ∧ console_error (analyzeLinkElement_start l st) = console_error st.
Proof.
  destruct (start_cases l st) as [[_ ->] | (_ & _ & ->)]; done.
Qed.

Lemma get_start l st i : get (analyzeLinkElement_start l st) i = get st i.
Proof. unfold get. by rewrite (proj1 (start_frame l st)). Qed.

Lemma analyze_all_frame ls st :
  elements (analyze_all ls st) = elements st
  ∧ now (analyze_all ls st) = now st
  ∧ timers (analyze_all ls st) = timers st
  ∧ settled (analyze_all ls st) = settled st
  ∧ console_error (analyze_all ls st) = console_error st.
Proof.
  revert st. induction ls as [|l ls IH]; intros st; [done |].
  cbn [analyze_all foldl]. fold (analyze_all ls (analyzeLinkElement_start l st)).
  destruct (IH (analyzeLinkElement_start l st)) as (-> & -> & -> & -> & ->).
  apply start_frame.
Qed.

(** The selectors read only the elements. *)
Lemma added_links_ext st st' n :
  elements st = elements st' → added_links st n = added_links st' n.
Proof.
  intros E. destruct n as [i ch|]; [| done].
  unfold added_links, querySelectorAll, get. by rewrite E.
Qed.

Lemma observer_callback_delivered ms st :
  observer_callback ms st = analyze_all (delivered st ms) st.
Proof.
  unfold observer_callback, delivered. revert st.
  induction ms as [|added ms IH]; intros st; [done |].
  cbn [foldl flat_map]. unfold analyze_all. rewrite foldl_app.
  assert (Hin : ∀ st0, elements st0 = elements st →
            foldl analyze_added st0 added
            = analyze_all (flat_map (added_links st) added) st0).
  { clear IH. induction added as [|n added IHa]; intros st0 E; [done |].
    cbn [foldl flat_map]. unfold analyze_all. rewrite foldl_app.
    unfold analyze_added at 2. rewrite (added_links_ext st0 st n E).
    apply IHa. fold (analyze_all (added_links st n) st0).
    by rewrite (proj1 (analyze_all_frame _ _)). }
  rewrite (Hin st eq_refl).
  set (st1 := analyze_all (flat_map (added_links st) added) st).
  rewrite IH. unfold analyze_all.
  assert (E1 : elements st1 = elements st) by apply analyze_all_frame.
  f_equal. clear -E1. induction ms as [|a ms IHm]; [done |].
  cbn [flat_map]. rewrite IHm. f_equal.
  clear -E1. induction a as [|n a IHn]; [done |].
  cbn [flat_map]. by rewrite IHn, (added_links_ext st1 st n E1).
Qed.

Lemma run_task_mutation ms st :
  run_task (Mutation ms) st = analyze_all (delivered st ms) st.
Proof. apply observer_callback_delivered. Qed.

(** *** What the index guarantees *)

Lemma index_ok_fresh els : index_ok (fresh els).
Proof. split; [constructor |]. intros u. simpl. set_solver. Qed.

Lemma index_ok_start l st : index_ok st → index_ok (analyzeLinkElement_start l st).
Proof.
  intros [Hnd Hreg].
  destruct (start_cases l st) as [[_ ->] | (Hnew & _ & ->)]; [done |].
  split; cbn [requests analyzedLinks].
  - rewrite fmap_app. apply NoDup_app. split_and!; [done | | apply NoDup_singleton].
    intros u Hu Hin. cbn in Hin. apply list_elem_of_singleton in Hin as ->.
    by apply Hnew, Hreg.
  - intros u. rewrite fmap_app, elem_of_app, elem_of_union, Hreg.
    cbn. rewrite list_elem_of_singleton, elem_of_singleton. done.
Qed.

Lemma index_ok_analyze_all ls st : index_ok st → index_ok (analyze_all ls st).
Proof.
  revert st. induction ls as [|l ls IH]; intros st H; [done |].
  apply IH, index_ok_start, H.
Qed.

Lemma resume_frame k o st :
  analyzedLinks (analyzeLinkElement_resume k o st) = analyzedLinks st
  ∧ requests (analyzeLinkElement_resume k o st) = requests st
  ∧ timers (analyzeLinkElement_resume k o st) = timers st
  ∧ now (analyzeLinkElement_resume k o st) = now st.
Proof.
  unfold analyzeLinkElement_resume.
  destruct (requests st !! k) as [r|]; [| done].
  case_bool_decide; [done |].
  by destruct (annotate _ _).
Qed.

Lemma index_ok_task t st : index_ok st → index_ok (run_task t st).
Proof.
  intros H. destruct t as [| ms | k o].
  - simpl. destruct (timers st) as [|tm q]; [done |].
    apply index_ok_start. exact H.
  - rewrite run_task_mutation. by apply index_ok_analyze_all.
  - unfold index_ok. simpl.
    by destruct (resume_frame k o st) as (-> & -> & _).
Qed.

Lemma index_ok_run ts st : index_ok st → index_ok (run ts st).
Proof.
  revert st. induction ts as [|t ts IH]; intros st H; [done |].
  apply IH, index_ok_task, H.
Qed.

Lemma index_ok_setTimeout l d st : index_ok st → index_ok (setTimeout l d st).
Proof. done. Qed.

Lemma index_ok_forEach i ls st : index_ok st → index_ok (forEach_setTimeout i ls st).
Proof.
  revert i st. induction ls as [|l ls IH]; intros i st H; [done |].
  apply IH, index_ok_setTimeout, H.
Qed.

Lemma index_ok_initial els doc : index_ok (initializeProtection els doc).
Proof. apply index_ok_forEach, index_ok_fresh. Qed.

(** *** Counting requests *)

Lemma requested_nil u (rs : list request) :
  u ∉ req_url <$> rs → requested u rs = [].
Proof.
  unfold requested. induction rs as [|r rs IH]; [done |].
  rewrite fmap_cons, not_elem_of_cons. intros [Hne Hnotin].
  cbn [List.filter]. rewrite bool_decide_eq_false_2 by done. by apply IH.
Qed.

Lemma requested_some u (rs : list request) :
  u ∈ req_url <$> rs → (1 <= length (requested u rs))%nat.
Proof.
  unfold requested. induction rs as [|r rs IH]; [by intros ?%elem_of_nil |].
  rewrite fmap_cons, elem_of_cons. intros Hin.
  cbn [List.filter]. case_bool_decide as Hu; [simpl; lia |].
  destruct Hin as [-> | Hin]; [done | by apply IH].
Qed.

Lemma requested_NoDup u (rs : list request) :
  NoDup (req_url <$> rs) → (length (requested u rs) <= 1)%nat.
Proof.
  induction rs as [|r rs IH]; [simpl; lia |].
  rewrite fmap_cons. intros [Hnotin Hnd]%NoDup_cons.
  unfold requested in *. cbn [List.filter]. case_bool_decide as Hu; [| by apply IH].
  subst u. fold (requested (req_url r) rs).
  rewrite requested_nil by done. simpl. lia.
Qed.

Lemma requested_app u rs rs' : requested u (rs ++ rs') = requested u rs ++ requested u rs'.
Proof. apply List.filter_app. Qed.

Lemma unsettled_le u (S0 : gset nat) k (rs : list request) :
  (length (unsettled u S0 k rs) <= length (requested u rs))%nat.
Proof.
  revert k. unfold requested.
  induction rs as [|r rs IH]; intros k; [done |].
  cbn [unsettled List.filter]. rewrite length_app. specialize (IH (S k)).
  case_bool_decide; simpl; [case_bool_decide; simpl; lia | lia].
Qed.

(** *** The index only grows, and a call registers its URL *)

Lemma analyzedLinks_start l st :
  analyzedLinks st ⊆ analyzedLinks (analyzeLinkElement_start l st).
Proof.
  destruct (start_cases l st) as [[_ ->] | (_ & _ & ->)]; [done |].
  cbn. set_solver.
Qed.

Lemma analyzedLinks_analyze_all ls st :
  analyzedLinks st ⊆ analyzedLinks (analyze_all ls st).
Proof.
  revert st. induction ls as [|l ls IH]; intros st; [done |].
  etrans; [apply (analyzedLinks_start l) | apply IH].
Qed.

Lemma analyzedLinks_task t st : analyzedLinks st ⊆ analyzedLinks (run_task t st).
Proof.
  destruct t as [| ms | k o].
  - simpl. destruct (timers st) as [|tm q]; [done |].
    apply (analyzedLinks_start _ (set_now _ (set_timers _ st))).
  - rewrite run_task_mutation. apply analyzedLinks_analyze_all.
  - simpl. by rewrite (proj1 (resume_frame k o st)).
Qed.

Lemma analyzedLinks_run ts st : analyzedLinks st ⊆ analyzedLinks (run ts st).
Proof.
  revert st. induction ts as [|t ts IH]; intros st; [done |].
  etrans; [apply (analyzedLinks_task t) | apply IH].
Qed.

Lemma registered_start l st :
  http_or_https (href_prop (get st l)) = true →
  href_prop (get st l) ∈ analyzedLinks (analyzeLinkElement_start l st).
Proof.
  intros Hq. destruct (start_cases l st) as [[[Hin | Hno] ->] | (_ & _ & ->)].
  - done.
  - congruence.
  - cbn. set_solver.
Qed.

Lemma get_analyze_all ls st i : get (analyze_all ls st) i = get st i.
Proof. unfold get. by rewrite (proj1 (analyze_all_frame ls st)). Qed.

Lemma registered_analyze_all ls st l :
  l ∈ ls → http_or_https (href_prop (get st l)) = true →
  href_prop (get st l) ∈ analyzedLinks (analyze_all ls st).
Proof.
  revert st. induction ls as [|l' ls IH]; intros st Hin Hq; [by apply elem_of_nil in Hin |].
  cbn [analyze_all foldl]. fold (analyze_all ls (analyzeLinkElement_start l' st)).
  apply elem_of_cons in Hin as [-> | Hin].
  - apply analyzedLinks_analyze_all, registered_start, Hq.
  - rewrite <- (get_start l' st l). apply IH; [done |]. by rewrite get_start.
Qed.

(** *** The tag and the href of an element never change *)

Lemma same_links_refl st : same_links st st.
Proof. done. Qed.

Lemma same_links_trans st1 st2 st3 :
  same_links st1 st2 → same_links st2 st3 → same_links st1 st3.
Proof.
  intros H1 H2 i. destruct (H1 i) as [<- <-]. apply H2.
Qed.

Lemma same_links_elements st st' : elements st' = elements st → same_links st st'.
Proof. intros E i. unfold get. by rewrite E. Qed.

Lemma annotate_static o e e' :
  annotate o e = inr e' → tagName e' = tagName e ∧ href e' = href e.
Proof.
  destruct o as [|ok [|[|sc lv rc]]]; try discriminate.
  intros [= <-]. unfold addRiskIndicator, indicator.
  by repeat (destruct (ge _ _)).
Qed.

Lemma same_links_resume k o st : same_links st (analyzeLinkElement_resume k o st).
Proof.
  unfold analyzeLinkElement_resume.
  destruct (requests st !! k) as [r|]; [| done].
  case_bool_decide; [done |].
  destruct (annotate _ _) as [err | e'] eqn:E; [done |].
  intros i. unfold get at 1 3. cbn [elements set_element set_settled].
  destruct (decide (i = req_link r)) as [-> | Hne].
  - rewrite lookup_insert_eq. cbn. by apply annotate_static in E.
  - by rewrite lookup_insert_ne.
Qed.

Lemma same_links_task t st : same_links st (run_task t st).
Proof.
  destruct t as [| ms | k o].
  - simpl. destruct (timers st) as [|tm q]; [done |].
    apply same_links_elements. by rewrite (proj1 (start_frame _ _)).
  - rewrite run_task_mutation. apply same_links_elements, analyze_all_frame.
  - apply same_links_resume.
Qed.

Lemma same_links_run ts st : same_links st (run ts st).
Proof.
  revert st. induction ts as [|t ts IH]; intros st; [done |].
  eapply same_links_trans; [apply (same_links_task t) | apply IH].
Qed.

Lemma same_links_href st st' i : same_links st st' → href_prop (get st' i) = href_prop (get st i).
Proof. intros H. unfold href_prop, href_of. by destruct (H i) as [-> ->]. Qed.

Lemma same_links_is_link st st' i : same_links st st' → is_link (get st' i) = is_link (get st i).
Proof. intros H. unfold is_link. destruct (H i) as [-> ->]. done. Qed.

Lemma added_links_static st st' n : same_links st st' → added_links st' n = added_links st n.
Proof.
  intros H. destruct n as [i ch|]; [| done]. unfold added_links, querySelectorAll.
  rewrite (same_links_href st st' i H), (proj1 (H i)). f_equal.
  apply List.filter_ext. intros j. by apply same_links_is_link.
Qed.

Lemma delivered_static st st' ms : same_links st st' → delivered st' ms = delivered st ms.
Proof.
  intros H. unfold delivered. induction ms as [|a ms IH]; [done |].
  cbn [flat_map]. rewrite IH. f_equal.
  induction a as [|n a IHa]; [done |].
  cbn [flat_map]. by rewrite IHa, (added_links_static st st' n H).
Qed.

End Index.

(* ===================================================================== *)
(** ** Timers and the staggered scan                                      *)
(* ===================================================================== *)

Section Scan.
Import JS Content Props.

Lemma enqueue_last t q :
  Forall (λ t', due t' <= due t) q → enqueue t q = q ++ [t].
Proof.
  induction 1 as [|t' q Hle _ IH]; [done |].
  simpl. rewrite (proj2 (Z.leb_le _ _) Hle). by rewrite IH.
Qed.

Lemma slots_cons i l ls : slots i (l :: ls) = mkTimer (Z.of_nat i * 100) l :: slots (S i) ls.
Proof.
  unfold slots. rewrite imap_cons. f_equal; [by rewrite Nat.add_0_r |].
  apply imap_ext. intros j x _. simpl. do 2 f_equal. lia.
Qed.

Lemma timer_link_slots i ls : timer_link <$> slots i ls = ls.
Proof.
  revert i. induction ls as [|l ls IH]; intros i; [done |].
  by rewrite slots_cons, fmap_cons, IH.
Qed.

Lemma slots_due i ls : Forall (λ t, Z.of_nat i * 100 <= due t) (slots i ls).
Proof.
  revert i. induction ls as [|l ls IH]; intros i; [constructor |].
  rewrite slots_cons. constructor; [simpl; lia |].
  eapply Forall_impl; [apply (IH (S i)) |]. simpl. intros t. lia.
Qed.

(** A delay that fits a [long] is waited for as it is. *)
Lemma timeout_small d : 0 <= d < 2 ^ 31 → timeout d = d.
Proof.
  intros Hd. unfold timeout, ToInt32.
  rewrite Z.mod_small by lia. lia.
Qed.

(** One that does not is cut down: 2^31 ms do not wait at all. *)
Example timeout_overflow : timeout (2 ^ 31) = 0 ∧ timeout (2 ^ 32 + 500) = 500.
Proof. by vm_compute. Qed.

(** What scheduling changes: the timers, and nothing else. *)
Lemma forEach_setTimeout_frame i ls st :
  analyzedLinks (forEach_setTimeout i ls st) = analyzedLinks st
  ∧ now (forEach_setTimeout i ls st) = now st
  ∧ requests (forEach_setTimeout i ls st) = requests st
  ∧ settled (forEach_setTimeout i ls st) = settled st
  ∧ elements (forEach_setTimeout i ls st) = elements st
  ∧ console_error (forEach_setTimeout i ls st) = console_error st.
Proof.
  revert i st. induction ls as [|l ls IH]; intros i st; [done |].
  cbn [forEach_setTimeout].
  by destruct (IH (S i) (setTimeout l (Z.of_nat i * 100) st)) as (-> & -> & -> & -> & -> & ->).
Qed.

Lemma elem_of_enqueue t t' q : t' ∈ enqueue t q ↔ t' = t ∨ t' ∈ q.
Proof.
  induction q as [|t0 q IH]; cbn [enqueue].
  - rewrite list_elem_of_singleton, elem_of_nil. tauto.
  - destruct (due t0 <=? due t).
    + rewrite !elem_of_cons, IH. tauto.
    + rewrite !elem_of_cons. tauto.
Qed.

(** Every link of the scan gets a timer, and the timers that were pending
    stay. *)
Lemma timer_link_forEach i ls st l :
  l ∈ timer_link <$> timers (forEach_setTimeout i ls st)
  ↔ l ∈ timer_link <$> timers st ∨ l ∈ ls.
Proof.
  revert i st. induction ls as [|l0 ls IH]; intros i st.
  - cbn. rewrite elem_of_nil. tauto.
  - cbn [forEach_setTimeout]. rewrite IH, elem_of_cons.
    unfold setTimeout. cbn [timers set_timers].
    rewrite !list_elem_of_fmap.
    split.
    + intros [(t & -> & [-> | Ht]%elem_of_enqueue) | Hl]; cbn; eauto.
    + intros [(t & -> & Ht) | [-> | Hl]]; [left | left | by right].
      * exists t. split; [done |]. apply elem_of_enqueue. by right.
      * eexists. split; [| apply elem_of_enqueue; by left]. done.
Qed.

(** On a page with no timer pending and the clock at zero, the scan
    queues one timer per link, the [j]-th due at [j * 100], as long as
    these delays fit a [long]. *)
Lemma forEach_setTimeout_slots ls i st q :
  now st = 0 → timers st = q → Forall (λ t, due t <= Z.of_nat i * 100) q →
  Z.of_nat (i + length ls) * 100 <= 2 ^ 31 →
  forEach_setTimeout i ls st = set_timers (λ _, q ++ slots i ls) st.
Proof.
  revert i st q. induction ls as [|l ls IH]; intros i st q Hnow Hq Hle Hfit.
  - simpl. unfold slots. simpl. rewrite app_nil_r. subst q. by destruct st.
  - cbn [forEach_setTimeout]. cbn [length] in Hfit.
    assert (E : setTimeout l (Z.of_nat i * 100) st
                = set_timers (λ _, q ++ [mkTimer (Z.of_nat i * 100) l]) st).
    { unfold setTimeout, set_timers. rewrite Hnow, Hq, timeout_small by lia.
      rewrite enqueue_last; [done |]. simpl. exact Hle. }
    rewrite E.
    rewrite (IH (S i) _ (q ++ [mkTimer (Z.of_nat i * 100) l])); [| done | done | |].
    + rewrite slots_cons. unfold set_timers. simpl. by rewrite <- app_assoc.
    + apply Forall_app. split.
      * eapply Forall_impl; [exact Hle |]. simpl. intros t. lia.
      * repeat constructor. simpl. lia.
    + lia.
Qed.

Lemma initializeProtection_eq els doc :
  Z.of_nat (length (querySelectorAll_document (fresh els) doc)) * 100 <= 2 ^ 31 →
  initializeProtection els doc
  = set_timers (λ _, slots 0 (querySelectorAll_document (fresh els) doc)) (fresh els).
Proof.
  intros Hfit. unfold initializeProtection, scanAllLinks.
  by rewrite (forEach_setTimeout_slots _ 0 (fresh els) []).
Qed.

(** Whatever the number of links, the scan only sets timers, one for each
    link. *)
Lemma initializeProtection_frame els doc :
  let st0 := initializeProtection els doc in
  analyzedLinks st0 = ∅ ∧ now st0 = 0 ∧ requests st0 = [] ∧ settled st0 = ∅
  ∧ elements st0 = els ∧ console_error st0 = [].
Proof. apply (forEach_setTimeout_frame 0 _ (fresh els)). Qed.

Lemma initializeProtection_timers els doc l :
  l ∈ timer_link <$> timers (initializeProtection els doc)
  ↔ l ∈ querySelectorAll_document (fresh els) doc.
Proof.
  unfold initializeProtection, scanAllLinks. rewrite timer_link_forEach.
  cbn. rewrite elem_of_nil. tauto.
Qed.

Lemma staggered_ext st st' seen i ls :
  elements st = elements st' → staggered st seen i ls = staggered st' seen i ls.
Proof.
  intros E. revert seen i. induction ls as [|l ls IH]; intros seen i; [done |].
  cbn [staggered]. unfold get. rewrite E. by rewrite !IH.
Qed.

(** Firing the timers of a scan one after the other issues exactly the
    staggered requests. *)
Lemma run_slots ls i st :
  timers st = slots i ls → now st <= Z.of_nat i * 100 →
  let st' := run (replicate (length ls) TimerFires) st in
  requests st' = requests st ++ staggered st (analyzedLinks st) i ls
  ∧ timers st' = [] ∧ elements st' = elements st ∧ settled st' = settled st
  ∧ console_error st' = console_error st.
Proof.
  revert i st. induction ls as [|l ls IH]; intros i st Ht Hnow.
  - simpl. by rewrite app_nil_r.
  - rewrite slots_cons in Ht. cbn [length replicate run foldl run_task].
    rewrite Ht. cbn [timer_link due].
    rewrite Z.max_r by done.
    set (mid := set_now (Z.of_nat i * 100) (set_timers (λ _, slots (S i) ls) st)).
    fold (run (replicate (length ls) TimerFires) (analyzeLinkElement_start l mid)).
    destruct (start_frame l mid) as (He & Hn & Htm & Hs & Hc).
    destruct (IH (S i) (analyzeLinkElement_start l mid)) as (IH1 & IH2 & IH3 & IH4 & IH5).
    { by rewrite Htm. }
    { rewrite Hn. simpl. lia. }
    cbv zeta. rewrite IH1, IH2, IH3, IH4, IH5, He, Hs, Hc.
    split_and!; try done.
    rewrite (staggered_ext _ st) by (by rewrite He).
    cbn [staggered]. change (get st l) with (get mid l).
    destruct (start_cases l mid) as [[Hskip ->] | (Hnew & Hq & ->)];
      cbn [requests analyzedLinks]; change (analyzedLinks mid) with (analyzedLinks st).
    + assert (Hb : bool_decide (href_prop (get mid l) ∈ analyzedLinks st)
                   || negb (http_or_https (href_prop (get mid l))) = true).
      { destruct Hskip as [Hin | Hno].
        - by rewrite bool_decide_eq_true_2.
        - rewrite Hno. by rewrite orb_true_r. }
      by rewrite Hb.
    + rewrite bool_decide_eq_false_2, Hq by done. cbn [orb negb].
      by rewrite <- app_assoc.
Qed.

(** *** What a staggered scan requests *)

(** Each request stems from a link, was issued in that link's slot, and
    the [k]-th request comes from a link at position [k] or later. *)
Lemma staggered_source st seen i ls k r :
  staggered st seen i ls !! k = Some r →
  ∃ j, ls !! j = Some (req_link r)
       ∧ req_url r = href_prop (get st (req_link r))
       ∧ http_or_https (req_url r) = true
       ∧ req_time r = Z.of_nat (i + j) * 100 ∧ (k <= j)%nat.
Proof.
  revert seen i k. induction ls as [|l ls IH]; intros seen i k H; [done |].
  cbn [staggered] in H.
  destruct (bool_decide _ || negb _) eqn:Hb.
  - destruct (IH _ _ _ H) as (j & Hj & Hu & Hq & Ht & Hk).
    exists (S j). split_and!; try done; [rewrite Ht; f_equal; lia | lia].
  - apply orb_false_elim in Hb as [_ Hq%negb_false_iff].
    destruct k as [|k].
    + injection H as <-. exists 0%nat. cbn. split_and!; try done; [f_equal; lia].
    + cbn in H. destruct (IH _ _ _ H) as (j & Hj & Hu & Hq' & Ht & Hk).
      exists (S j). split_and!; try done; [rewrite Ht; f_equal; lia | lia].
Qed.

Lemma staggered_not_before st seen i ls :
  Forall (λ r, Z.of_nat i * 100 <= req_time r) (staggered st seen i ls).
Proof.
  apply Forall_lookup. intros k r H.
  destruct (staggered_source _ _ _ _ _ _ H) as (j & _ & _ & _ & -> & _). lia.
Qed.

(** Two consecutive requests are at least 100 ms apart. *)
Lemma staggered_gap st seen i ls k r r' :
  staggered st seen i ls !! k = Some r →
  staggered st seen i ls !! S k = Some r' →
  req_time r + 100 <= req_time r'.
Proof.
  revert seen i k. induction ls as [|l ls IH]; intros seen i k H H'; [done |].
  cbn [staggered] in H, H'.
  destruct (bool_decide _ || negb _); [by eapply IH |].
  destruct k as [|k].
  - injection H as <-. cbn in H'. cbn [req_time].
    pose proof (staggered_not_before st (seen ∪ {[href_prop (get st l)]}) (S i) ls) as Hnb.
    rewrite Forall_lookup in Hnb. specialize (Hnb _ _ H'). lia.
  - cbn in H, H'. by eapply IH.
Qed.

(** A link whose URL is http(s) and has not occurred before gets its
    request in its own slot. *)
Lemma staggered_first st seen i ls j l :
  ls !! j = Some l →
  http_or_https (href_prop (get st l)) = true →
  href_prop (get st l) ∉ seen →
  href_prop (get st l) ∉ (λ l', href_prop (get st l')) <$> take j ls →
  mkRequest (Z.of_nat (i + j) * 100) (href_prop (get st l)) l ∈ staggered st seen i ls.
Proof.
  revert seen i j. induction ls as [|l0 ls IH]; intros seen i j Hj Hq Hseen Hfirst; [done |].
  cbn [staggered]. destruct j as [|j].
  - injection Hj as ->. rewrite bool_decide_eq_false_2, Hq by done. cbn [orb negb].
    rewrite Nat.add_0_r. apply list_elem_of_here.
  - cbn in Hj. cbn [take] in Hfirst. rewrite fmap_cons, not_elem_of_cons in Hfirst.
    destruct Hfirst as [Hne Hfirst].
    replace (i + S j)%nat with (S i + j)%nat by lia.
    destruct (bool_decide _ || negb _).
    + by apply IH.
    + apply list_elem_of_further, IH; try done.
      rewrite not_elem_of_union, not_elem_of_singleton. split; [done | congruence].
Qed.

(** When every link is http(s) and no URL occurs twice, slot [j] carries
    the request of link [j]. *)
Lemma staggered_all st seen i ls :
  Forall (λ l, http_or_https (href_prop (get st l)) = true) ls →
  NoDup ((λ l, href_prop (get st l)) <$> ls) →
  (∀ l, l ∈ ls → href_prop (get st l) ∉ seen) →
  staggered st seen i ls
  = imap (λ j l, mkRequest (Z.of_nat (i + j) * 100) (href_prop (get st l)) l) ls.
Proof.
  revert seen i. induction ls as [|l ls IH]; intros seen i Hq Hnd Hseen; [done |].
  apply Forall_cons in Hq as [Hq Hqs]. rewrite fmap_cons in Hnd.
  apply NoDup_cons in Hnd as [Hnotin Hnd].
  cbn [staggered]. rewrite imap_cons.
  rewrite bool_decide_eq_false_2, Hq by (apply Hseen, list_elem_of_here).
  cbn [orb negb]. rewrite Nat.add_0_r. f_equal.
  rewrite IH; try done.
  - apply imap_ext. intros j x _. simpl. do 2 f_equal. lia.
  - intros l' Hl'. rewrite not_elem_of_union, not_elem_of_singleton. split.
    + apply Hseen. by apply list_elem_of_further.
    + intros E. apply Hnotin. rewrite <- E. apply list_elem_of_fmap. eauto.
Qed.

End Scan.

Section Pending.
Import JS Content Props.

(** Only a settlement writes to the elements. *)
Lemma elements_run_unsettled ts st :
  forallb (λ t, negb (is_settlement t)) ts = true →
  elements (run ts st) = elements st.
Proof.
  revert st. induction ts as [|t ts IH]; intros st H; [done |].
  cbn [forallb] in H. apply andb_prop in H as [Ht Hts].
  cbn [run foldl]. fold (run ts (run_task t st)). rewrite IH by done.
  destruct t as [| ms | k o]; [| | done].
  - simpl. destruct (timers st) as [|tm q]; [done |].
    by rewrite (proj1 (start_frame _ _)).
  - rewrite run_task_mutation. apply analyze_all_frame.
Qed.

End Pending.

(** C1 — The navigation gate classifies every click.  For an element whose
    annotation holds an integer score [s] in 0..100, the click is DENY exactly
    when [s >= 70], WARN exactly when [40 <= s < 70], ALLOW exactly when
    [s < 40], and then the listener leaves the event as it found it.  An
    element with no score attribute is ALLOW and its click is untouched; and
    an element keeps having no score while its request is pending or in
    flight, since only a settlement writes to elements. *)
Theorem C1_gate_classification
    (user : string → bool) (st : Content.page) (id : Content.elemId) (g : Content.gate) :
  (∀ s, 0 <= s <= 100 →
        Content.data_risk_score (Content.get st id) = Some (JS.Number_toString s) →
        (Content.classify user st (Some id) g = Content.DENY ↔ 70 <= s)
        ∧ (Content.classify user st (Some id) g = Content.WARN ↔ 40 <= s < 70)
        ∧ (Content.classify user st (Some id) g = Content.ALLOW ↔ s < 40)
        ∧ (s < 40 → Content.handleLinkClick user st (Some id) g = (None, g)))
  ∧ (Content.data_risk_score (Content.get st id) = None →
       Content.classify user st (Some id) g = Content.ALLOW
       ∧ Content.handleLinkClick user st (Some id) g = (None, g))
  ∧ (∀ ts, forallb (λ t, negb (Props.is_settlement t)) ts = true →
           Content.get (Content.run ts st) id = Content.get st id).
Proof.
  split_and!.
  - intros s Hs Hattr.
    pose proof (riskScore_annotated st id s Hattr) as Hscore.
    destruct (Z_lt_le_dec s 40) as [Hlow | H40].
    + assert (Hallow : Content.classify user st (Some id) g = Content.ALLOW).
      { apply classify_allow. rewrite Hscore. apply ge_Num_false. lia. }
      rewrite Hallow. repeat split; try done; try lia.
      intros _. apply gate_allow. rewrite Hscore. apply ge_Num_false. lia.
    + destruct (Z_lt_le_dec s 70) as [Hmid | H70].
      * assert (Hwarn : Content.classify user st (Some id) g = Content.WARN).
        { apply classify_warn; rewrite Hscore;
            [apply ge_Num_false | apply ge_Num]; lia. }
        rewrite Hwarn. repeat split; try done; try lia.
      * assert (Hdeny : Content.classify user st (Some id) g = Content.DENY).
        { apply classify_deny. rewrite Hscore. apply ge_Num. lia. }
        rewrite Hdeny. repeat split; try done; try lia.
  - intros Hnone. pose proof (riskScore_absent st id Hnone) as Hscore. split.
    + apply classify_allow. by rewrite Hscore.
    + apply gate_allow. by rewrite Hscore.
  - intros ts Hts. unfold Content.get. by rewrite elements_run_unsettled.
Qed.

Lemma C1_gate_classification_witness :
  Content.classify Examples.yes
    (Examples.page_with (Examples.annotated "http://evil/" "85" "HIGH RISK"))
    (Some 1%nat) Examples.untouched_event = Content.DENY.
Proof.
  destruct (proj1 (C1_gate_classification Examples.yes
                     (Examples.page_with (Examples.annotated "http://evil/" "85" "HIGH RISK"))
                     1%nat Examples.untouched_event) 85 ltac:(lia) eq_refl)
    as [Hdeny _].
  apply Hdeny. lia.
Defined.

(* ===================================================================== *)
(** ** The warning modal                                                  *)
(* ===================================================================== *)

Section Modal.
Import JS Content Props.

Lemma listen_buttons_spec i h bs bs' :
  listen_buttons i h bs = Some bs' →
  button_id <$> bs' = button_id <$> bs
  ∧ label <$> bs' = label <$> bs
  ∧ (∀ P : list action → Prop,
       P h → Forall (λ b, Forall P (listeners b)) bs →
       Forall (λ b, Forall P (listeners b)) bs')
  ∧ (handler_navigations h = [] →
     flat_map button_navigations bs' = flat_map button_navigations bs).
Proof.
  revert bs'. induction bs as [|b bs IH]; intros bs' H; [done |].
  cbn [listen_buttons] in H. case_bool_decide as Hid.
  - injection H as <-. split_and!; [done | done | |].
    + intros P Ph [Hb Hbs]%Forall_cons. constructor; [| done].
      cbn. apply Forall_app. split; [done | by repeat constructor].
    + intros Hnav. cbn [flat_map]. f_equal.
      unfold button_navigations. cbn [listeners].
      rewrite flat_map_app. cbn [flat_map]. by rewrite Hnav, !app_nil_r.
  - destruct (listen_buttons i h bs) as [bs0|]; [| done].
    injection H as <-. destruct (IH bs0 eq_refl) as (Hi & Hl & HP & Hn).
    split_and!.
    + by rewrite !fmap_cons, Hi.
    + by rewrite !fmap_cons, Hl.
    + intros P Ph [Hb Hbs]%Forall_cons. constructor; [done | by apply HP].
    + intros Hnav. cbn [flat_map]. by rewrite Hn.
Qed.

Lemma similar_refl h o : similar h o o.
Proof. unfold similar. split_and!; done. Qed.

Lemma addEventListener_byId_similar i h os :
  Forall2 (similar h) os (addEventListener_byId i h os).
Proof.
  induction os as [|o os IH]; [constructor |].
  cbn [addEventListener_byId].
  destruct (listen_buttons i h (buttons o)) as [bs|] eqn:E.
  - constructor; [| apply Forall_Forall2_diag, Forall_forall; intros; apply similar_refl].
    destruct (listen_buttons_spec _ _ _ _ E) as (Hi & Hl & HP & Hn).
    unfold similar. cbn. split_and!; done.
  - constructor; [apply similar_refl | done].
Qed.

Lemma similar_navigations h os os' :
  handler_navigations h = [] → Forall2 (similar h) os os' →
  navigations os' = navigations os.
Proof.
  intros Hnav. induction 1 as [|o o' os os' Ho _ IH]; [done |].
  unfold navigations in *. cbn [flat_map]. rewrite IH. f_equal.
  by apply Ho.
Qed.

Lemma similar_warning_modal h k url score level m m' :
  dismiss_or_report k h → similar h m m' →
  warning_modal k url score level m → warning_modal k url score level m'.
Proof.
  intros Hh (Hk & Hs & Hl & Hu & Hids & Hlabels & HP & _)
         (Ek & Eu & Es & El & Hi & Hb & Hsafe).
  unfold warning_modal.
  split_and!; [congruence | congruence | congruence | congruence
               | congruence | congruence |].
  by apply HP.
Qed.

Lemma listen_buttons_free i h bs :
  Forall (λ b, button_id b ≠ i) bs → listen_buttons i h bs = None.
Proof.
  induction 1 as [|b bs Hb _ IH]; [done |].
  cbn [listen_buttons]. rewrite bool_decide_eq_false_2 by done. by rewrite IH.
Qed.

Lemma addEventListener_byId_free i h os rest :
  Forall (λ o, Forall (λ b, button_id b ≠ i) (buttons o)) os →
  addEventListener_byId i h (os ++ rest) = os ++ addEventListener_byId i h rest.
Proof.
  induction 1 as [|o os Ho _ IH]; [done |].
  cbn [app addEventListener_byId]. rewrite listen_buttons_free by done. by rewrite IH.
Qed.

(** The modal [showWarningModal] appends, and what it does to the rest. *)
Lemma showWarningModal_spec url score level g :
  let g' := (showWarningModal url score level g).2 in
  defaultPrevented g' = defaultPrevented g
  ∧ propagationStopped g' = propagationStopped g
  ∧ dialogs g' = dialogs g
  ∧ (∃ rest m, body_children g' = rest ++ [m]
               ∧ length rest = length (body_children g)
               ∧ warning_modal (created g) url (jsnum_toString score) level m)
  ∧ navigations (body_children g') = navigations (body_children g)
  ∧ (ids_free (body_children g) →
     body_children g'
     = body_children g ++ [the_modal (created g) url (jsnum_toString score) level]).
Proof.
  cbn [showWarningModal snd defaultPrevented propagationStopped dialogs body_children].
  set (k := created g).
  set (m0 := mkOverlay k (jsnum_toString score) level url
                       [mkButton "closeWarning" "Close" [];
                        mkButton "reportThreat" "Report Threat" []]).
  set (h1 := [RemoveModal k]).
  set (h2 := [Alert "Thank you for reporting! This threat has been logged.";
              RemoveModal k]).
  set (os1 := addEventListener_byId "closeWarning" h1 (body_children g ++ [m0])).
  pose proof (addEventListener_byId_similar "closeWarning" h1 (body_children g ++ [m0]))
    as S1. fold os1 in S1.
  pose proof (addEventListener_byId_similar "reportThreat" h2 os1) as S2.
  set (os2 := addEventListener_byId "reportThreat" h2 os1) in *.
  assert (D1 : dismiss_or_report k h1) by (repeat constructor).
  assert (D2 : dismiss_or_report k h2).
  { constructor; [right; eauto | repeat constructor]. }
  split_and!; try done.
  - apply Forall2_app_inv_l in S1 as (r1 & l1 & Hr1 & Hl1 & E1).
    apply Forall2_cons_inv_l in Hl1 as (m1 & l1' & Hm1 & Hnil & ->).
    apply Forall2_nil_inv_l in Hnil as ->.
    rewrite E1 in S2.
    apply Forall2_app_inv_l in S2 as (r2 & l2 & Hr2 & Hl2 & E2).
    apply Forall2_cons_inv_l in Hl2 as (m2 & l2' & Hm2 & Hnil & ->).
    apply Forall2_nil_inv_l in Hnil as ->.
    exists r2, m2. split_and!; [exact E2 | |].
    + apply Forall2_length in Hr1, Hr2. lia.
    + apply (similar_warning_modal h2 k _ _ _ m1); [done | done |].
      apply (similar_warning_modal h1 k _ _ _ m0); [done | done |].
      unfold warning_modal, m0. cbn. split_and!; try done. repeat constructor.
  - change (navigations os2 = navigations (body_children g)).
    rewrite (similar_navigations h2 os1 os2),
      (similar_navigations h1 (body_children g ++ [m0]) os1); try done.
    unfold navigations. rewrite flat_map_app. cbn. by rewrite app_nil_r.
  - intros Hfree.
    change (os2 = body_children g ++ [the_modal k url (jsnum_toString score) level]).
    unfold os2, os1.
    rewrite addEventListener_byId_free.
    2:{ eapply Forall_impl; [exact Hfree |]. cbn. intros o Ho.
        eapply Forall_impl; [exact Ho |]. cbn. tauto. }
    rewrite addEventListener_byId_free.
    2:{ eapply Forall_impl; [exact Hfree |]. cbn. intros o Ho.
        eapply Forall_impl; [exact Ho |]. cbn. tauto. }
    done.
Qed.

End Modal.



(** C5 — A click on an element annotated with a score [s], [40 <= s < 70],
    asks the user first.  The listener shows one confirmation prompt (and no
    modal) and waits for the answer.  If the user declines, the default
    action is cancelled, the propagation stopped and [false] returned, as in
    the DENY branch; if the user accepts, the listener returns with the
    event's flags as it found them. *)
Theorem C5_warn_asks_user
    (user : string → bool) (st : Content.page) (id : Content.elemId)
    (g : Content.gate) (s : Z) :
  40 <= s < 70 →
  Content.data_risk_score (Content.get st id) = Some (JS.Number_toString s) →
  let level := JS.or_default (Content.data_risk_level (Content.get st id)) "UNKNOWN" in
  let msg := Content.confirm_message (JS.Num s) level in
  let res := Content.handleLinkClick user st (Some id) g in
  Content.dialogs res.2 = Content.dialogs g ++ [msg]
  ∧ Content.body_children res.2 = Content.body_children g
  ∧ (user msg = false →
     res.1 = Some false
     ∧ Content.defaultPrevented res.2 = true
     ∧ Content.propagationStopped res.2 = true)
  ∧ (user msg = true →
     res.1 = None
     ∧ Content.defaultPrevented res.2 = Content.defaultPrevented g
     ∧ Content.propagationStopped res.2 = Content.propagationStopped g).
Proof.
  intros Hs Hattr level msg res.
  pose proof (riskScore_annotated st id s Hattr) as Hscore.
  assert (Hres : res = if user msg
            then (None, Content.mkGate (Content.defaultPrevented g)
                          (Content.propagationStopped g) (Content.body_children g)
                          (Content.created g) (Content.dialogs g ++ [msg]))
            else (Some false, Content.mkGate true true (Content.body_children g)
                                (Content.created g) (Content.dialogs g ++ [msg]))).
  { unfold res. rewrite gate_warn; rewrite Hscore;
      [done | apply ge_Num_false; lia | apply ge_Num; lia]. }
  rewrite Hres. destruct (user msg); cbn; split_and!; done.
Qed.

Lemma C5_warn_asks_user_witness :
  let res := Content.handleLinkClick Examples.no
               (Examples.page_with (Examples.annotated "http://odd/" "55" "MEDIUM RISK"))
               (Some 1%nat) Examples.untouched_event in
  res.1 = Some false
  ∧ Content.defaultPrevented res.2 = true
  ∧ Content.propagationStopped res.2 = true.
Proof.
  destruct (C5_warn_asks_user Examples.no
              (Examples.page_with (Examples.annotated "http://odd/" "55" "MEDIUM RISK"))
              1%nat Examples.untouched_event 55 ltac:(lia) eq_refl)
    as (_ & _ & Hdecline & _).
  apply Hdecline. reflexivity.
Defined.

(** C10 — A score attribute that [parseInt] cannot read fails open.  When
    the stored value parses to NaN, both comparisons of the listener are
    false: the click is classified ALLOW, no modal and no prompt is shown,
    and the event is returned untouched. *)
Theorem C10_unparsable_score_fails_open
    (user : string → bool) (st : Content.page) (id : Content.elemId)
    (g : Content.gate) (a : string) :
  Content.data_risk_score (Content.get st id) = Some a →
  JS.parseInt a = JS.NaN →
  Content.handleLinkClick user st (Some id) g = (None, g)
  ∧ Content.classify user st (Some id) g = Content.ALLOW.
Proof.
  intros Hattr Hnan.
  assert (Hlow : JS.ge (JS.parseInt (JS.or_default
                   (Content.data_risk_score (Content.get st id)) "0")) 40 = false).
  { rewrite Hattr. destruct a as [|c a']; [done |]. cbn [JS.or_default].
    by rewrite Hnan. }
  split; [by apply gate_allow | by apply classify_allow].
Qed.

Lemma C10_unparsable_score_fails_open_witness :
  Content.handleLinkClick Examples.no
    (Examples.page_with (Examples.annotated "http://odd/" "undefined" "undefined"))
    (Some 1%nat) Examples.untouched_event
  = (None, Examples.untouched_event).
Proof.
  apply (C10_unparsable_score_fails_open Examples.no
           (Examples.page_with (Examples.annotated "http://odd/" "undefined" "undefined"))
           1%nat Examples.untouched_event "undefined"); reflexivity.
Defined.

Section Watcher.
Import JS Content Props.

(** What a run of calls to [analyzeLinkElement] adds: requests stamped
    with the current time, one per URL that gets registered. *)
Lemma analyze_all_requests ls st :
  ∃ new, requests (analyze_all ls st) = requests st ++ new
         ∧ Forall (λ r, req_time r = now st ∧ req_link r ∈ ls
                        ∧ req_url r = href_prop (get st (req_link r))) new
         ∧ analyzedLinks (analyze_all ls st)
           = analyzedLinks st ∪ list_to_set (req_url <$> new).
Proof.
  revert st. induction ls as [|l ls IH]; intros st.
  - exists []. cbn. rewrite app_nil_r, union_empty_r_L. split_and!; [done | constructor | done].
  - cbn [analyze_all foldl]. fold (analyze_all ls (analyzeLinkElement_start l st)).
    destruct (IH (analyzeLinkElement_start l st)) as (new & Hreq & Hall & Hset).
    destruct (start_frame l st) as (He & Hn & _).
    assert (Hall' : Forall (λ r, req_time r = now st ∧ req_link r ∈ l :: ls
                                 ∧ req_url r = href_prop (get st (req_link r))) new).
    { eapply Forall_impl; [exact Hall |]. cbn. intros r (Ht & Hl & Hu).
      rewrite Hn in Ht. rewrite get_start in Hu.
      split_and!; [done | by apply list_elem_of_further | done]. }
    destruct (start_cases l st) as [[_ E] | (_ & _ & E)]; rewrite E in Hreq, Hset |- *.
    + exists new. done.
    + exists (mkRequest (now st) (href_prop (get st l)) l :: new).
      cbn [requests analyzedLinks] in Hreq, Hset. rewrite Hreq, Hset.
      split_and!.
      * by rewrite <- app_assoc.
      * constructor; [| done]. cbn. split_and!; [done | apply list_elem_of_here | done].
      * rewrite fmap_cons. cbn [req_url list_to_set]. by rewrite (assoc_L (∪)).
Qed.

Lemma elem_of_delivered st ms l :
  l ∈ delivered st ms ↔ ∃ added n, added ∈ ms ∧ n ∈ added ∧ l ∈ added_links st n.
Proof.
  unfold delivered. rewrite list_elem_of_In, in_flat_map. split.
  - intros (added & Ha & Hl). apply in_flat_map in Hl as (n & Hn & Hl).
    exists added, n. by rewrite !list_elem_of_In.
  - intros (added & n & Ha & Hn & Hl). exists added. split; [by apply list_elem_of_In |].
    apply in_flat_map. exists n. split; by apply list_elem_of_In.
Qed.

Lemma startsWith_nonempty p s : startsWith s p = true → p ≠ EmptyString → s ≠ EmptyString.
Proof. intros H Hp ->. destruct p; [done | discriminate H]. Qed.

Lemma http_or_https_nonempty u : http_or_https u = true → u ≠ EmptyString.
Proof.
  unfold http_or_https. intros [H | H]%orb_prop;
    by eapply startsWith_nonempty.
Qed.

(** Only an HTML anchor with an [href] attribute has an http(s) URL. *)
Lemma http_or_https_anchor e :
  http_or_https (href_prop e) = true → tagName e = "A" ∧ is_link e = true.
Proof.
  intros H. pose proof (http_or_https_nonempty _ H) as Hne.
  unfold href_prop, href_of, is_link in *.
  case_bool_decide as Htag; [| discriminate H]. split; [done |].
  destruct (href e); [done | by destruct Hne].
Qed.

(** *** The inserted subtree *)

Lemma inside_subtree l n : inside l n → l ∈ subtree n.
Proof.
  induction 1 as [ch | id ch c Hc _ IH]; cbn [subtree].
  - apply list_elem_of_here.
  - apply list_elem_of_further, list_elem_of_In, in_flat_map.
    exists c. by rewrite <- !list_elem_of_In.
Qed.

Lemma subtree_inside : ∀ n l, l ∈ subtree n → inside l n.
Proof.
  fix IH 1. intros [id ch|] l H; [| by apply elem_of_nil in H].
  cbn [subtree] in H. apply elem_of_cons in H as [-> | H]; [constructor |].
  assert (Hex : ∃ c, c ∈ ch ∧ inside l c).
  { clear id. induction ch as [|c ch IHch]; [by apply elem_of_nil in H |].
    cbn [flat_map] in H. apply elem_of_app in H as [H | H].
    - exists c. split; [apply list_elem_of_here | by apply IH].
    - destruct (IHch H) as (c' & Hc' & Hin). exists c'.
      split; [by apply list_elem_of_further | done]. }
  destruct Hex as (c & Hc & Hin). by apply (inside_child l id ch c).
Qed.

(** The callback hands [analyzeLinkElement] every element of an inserted
    subtree that has an http(s) URL, the root included, and nothing from
    outside the inserted subtrees. *)
Lemma added_links_inside st n l :
  inside l n → http_or_https (href_prop (get st l)) = true → l ∈ added_links st n.
Proof.
  intros Hin Hq. destruct (http_or_https_anchor _ Hq) as [Htag Hlink].
  destruct Hin as [ch | id ch c Hc Hin]; unfold added_links; apply elem_of_app.
  - left. rewrite Htag, !bool_decide_eq_true_2; [apply list_elem_of_here | | done].
    by apply http_or_https_nonempty.
  - right. cbn [querySelectorAll].
    apply list_elem_of_In, filter_In. split; [| done].
    apply in_flat_map. exists c. rewrite <- !list_elem_of_In.
    split; [done | by apply inside_subtree].
Qed.

Lemma inside_added_links st n l : l ∈ added_links st n → inside l n.
Proof.
  destruct n as [id ch|]; [| by intros ?%elem_of_nil].
  unfold added_links. intros [H | H]%elem_of_app.
  - destruct (bool_decide _ && bool_decide _); [| by apply elem_of_nil in H].
    apply list_elem_of_singleton in H as ->. constructor.
  - cbn [querySelectorAll] in H. apply list_elem_of_In, filter_In in H as [H _].
    apply subtree_inside. cbn [subtree]. by apply list_elem_of_further, list_elem_of_In.
Qed.

End Watcher.

Section Dedup.
Import JS Content Props.

Lemma run_app ts1 ts2 st : run (ts1 ++ ts2) st = run ts2 (run ts1 st).
Proof. apply foldl_app. Qed.

Lemma run_events_app es1 es2 st :
  run_events (es1 ++ es2) st = run_events es2 (run_events es1 st).
Proof. apply foldl_app. Qed.

Lemma run_events_tasks ts st : run_events (Task <$> ts) st = run ts st.
Proof.
  revert st. induction ts as [|t ts IH]; intros st; [done |].
  cbn. apply IH.
Qed.

(** *** What a message changes *)

Lemma rescanPage_frame doc st :
  analyzedLinks (rescanPage doc st) = ∅
  ∧ now (rescanPage doc st) = now st
  ∧ requests (rescanPage doc st) = requests st
  ∧ settled (rescanPage doc st) = settled st
  ∧ elements (rescanPage doc st) = elements st
  ∧ console_error (rescanPage doc st) = console_error st.
Proof. apply (forEach_setTimeout_frame 0 _ (set_analyzedLinks (λ _, ∅) st)). Qed.

Lemma onMessage_cases action doc st :
  (action = "rescanPage" ∧ onMessage action doc st = rescanPage doc st)
  ∨ (action ≠ "rescanPage" ∧ onMessage action doc st = st).
Proof. unfold onMessage. case_bool_decide; auto. Qed.

Lemma same_links_event e st : same_links st (run_event e st).
Proof.
  destruct e as [t | action doc]; [apply same_links_task |].
  cbn. destruct (onMessage_cases action doc st) as [[_ ->] | [_ ->]]; [| done].
  apply same_links_elements, rescanPage_frame.
Qed.

Lemma same_links_events es st : same_links st (run_events es st).
Proof.
  revert st. induction es as [|e es IH]; intros st; [done |].
  eapply same_links_trans; [apply (same_links_event e) | apply IH].
Qed.

Lemma querySelectorAll_document_static st st' doc :
  same_links st st' → querySelectorAll_document st' doc = querySelectorAll_document st doc.
Proof.
  intros H. unfold querySelectorAll_document.
  apply List.filter_ext. intros j. by apply same_links_is_link.
Qed.

(** *** Every scanned link is analysed once its timer has fired *)

Lemma scan_progress_task st0 links t st :
  same_links st0 st → scan_progress st0 links st → scan_progress st0 links (run_task t st).
Proof.
  intros Hsame Hp l Hl. specialize (Hp l Hl).
  pose proof (analyzedLinks_task t st) as Hmono.
  destruct Hp as [Hwait | Hdone]; [| right; intros Hq; exact (Hmono _ (Hdone Hq))].
  destruct t as [| ms | k o].
  - simpl. destruct (timers st) as [|tm q] eqn:Hq; [by apply elem_of_nil in Hwait |].
    rewrite fmap_cons in Hwait. apply elem_of_cons in Hwait as [-> | Hwait].
    + right. intros Hhttp.
      set (mid := set_now _ _).
      rewrite <- (same_links_href st0 st _ Hsame) in *.
      change (get st (timer_link tm)) with (get mid (timer_link tm)) in *.
      by apply registered_start.
    + left. by rewrite (proj1 (proj2 (proj2 (start_frame _ _)))).
  - left. rewrite run_task_mutation.
    by rewrite (proj1 (proj2 (proj2 (analyze_all_frame _ _)))).
  - left. simpl. by rewrite (proj1 (proj2 (proj2 (resume_frame k o st)))).
Qed.

Lemma scan_progress_run st0 links ts st :
  same_links st0 st → scan_progress st0 links st → scan_progress st0 links (run ts st).
Proof.
  revert st. induction ts as [|t ts IH]; intros st Hsame Hp; [done |].
  apply IH.
  - eapply same_links_trans; [exact Hsame | apply same_links_task].
  - by apply scan_progress_task.
Qed.

(** A scan, the first or a later one, leaves a timer for each of its
    links. *)
Lemma scan_progress_scan st0 doc st :
  same_links st0 st →
  scan_progress st0 (querySelectorAll_document st0 doc) (scanAllLinks doc st).
Proof.
  intros Hsame l Hl. left. unfold scanAllLinks.
  apply timer_link_forEach. right.
  by rewrite (querySelectorAll_document_static st0 st doc Hsame).
Qed.

Lemma scan_progress_events st0 es doc st :
  same_links st0 st →
  scan_progress st0 (querySelectorAll_document st0 doc) st →
  scan_progress st0 (querySelectorAll_document st0 (last_scanned es doc)) (run_events es st).
Proof.
  revert doc st. induction es as [|e es IH]; intros doc st Hsame Hp; [done |].
  cbn [run_events foldl]. fold (run_events es (run_event e st)).
  assert (Hsame' : same_links st0 (run_event e st)).
  { eapply same_links_trans; [exact Hsame | apply same_links_event]. }
  destruct e as [t | action doc']; cbn [last_scanned].
  - apply IH; [done |]. by apply scan_progress_task.
  - apply IH; [done |]. cbn [run_event] in *.
    destruct (onMessage_cases action doc' st) as [[-> ->] | [Hne ->]].
    + rewrite bool_decide_eq_true_2 by done. unfold rescanPage.
      apply scan_progress_scan.
      by eapply same_links_trans; [exact Hsame | apply same_links_elements].
    + by rewrite bool_decide_eq_false_2.
Qed.

Lemma scan_progress_initial els doc :
  let st0 := initializeProtection els doc in
  scan_progress st0 (querySelectorAll_document st0 doc) st0.
Proof. intros st0. apply (scan_progress_scan st0 doc (fresh els)).
  apply same_links_elements. symmetry. apply initializeProtection_frame. Qed.

(** A link the watcher delivered is registered from then on, as long as
    the index is not emptied. *)
Lemma delivered_registered st0 st ts ms l :
  same_links st0 st → Mutation ms ∈ ts → l ∈ delivered st0 ms →
  http_or_https (href_prop (get st0 l)) = true →
  href_prop (get st0 l) ∈ analyzedLinks (run ts st).
Proof.
  intros Hsame0 Hin Hl Hq. apply list_elem_of_split in Hin as (ts1 & ts2 & ->).
  rewrite run_app. cbn [run foldl]. fold (run ts2).
  apply analyzedLinks_run. rewrite run_task_mutation.
  assert (Hsame : same_links st0 (run ts1 st)).
  { eapply same_links_trans; [exact Hsame0 | apply same_links_run]. }
  rewrite (delivered_static st0 _ ms Hsame).
  rewrite <- (same_links_href st0 (run ts1 st) l Hsame) in *.
  by apply registered_analyze_all.
Qed.

(** *** The index since it was last emptied *)

Lemma index_ok_since_start n l st :
  index_ok_since n st → index_ok_since n (analyzeLinkElement_start l st).
Proof.
  intros (Hn & Hnd & Hreg).
  destruct (start_cases l st) as [[_ ->] | (Hnew & _ & ->)]; [done |].
  split_and!; cbn [requests analyzedLinks].
  - rewrite length_app. lia.
  - rewrite drop_app_le, fmap_app by done.
    apply NoDup_app. split_and!; [done | | apply NoDup_singleton].
    intros u Hu Hin. cbn in Hin. apply list_elem_of_singleton in Hin as ->.
    by apply Hnew, Hreg.
  - intros u. rewrite drop_app_le, fmap_app, elem_of_app, elem_of_union, Hreg by done.
    cbn. rewrite list_elem_of_singleton, elem_of_singleton. done.
Qed.

Lemma index_ok_since_task n t st : index_ok_since n st → index_ok_since n (run_task t st).
Proof.
  intros H. destruct t as [| ms | k o].
  - simpl. destruct (timers st) as [|tm q]; [done |].
    apply index_ok_since_start. exact H.
  - rewrite run_task_mutation. generalize (delivered st ms). intros ls.
    revert st H. induction ls as [|l ls IH]; intros st H; [done |].
    apply IH, index_ok_since_start, H.
  - unfold index_ok_since. simpl.
    by destruct (resume_frame k o st) as (-> & -> & _).
Qed.

Lemma index_ok_since_rescan n doc st :
  index_ok_since n st → index_ok_since (length (requests st)) (rescanPage doc st).
Proof.
  intros _. unfold index_ok_since.
  destruct (rescanPage_frame doc st) as (-> & _ & -> & _).
  rewrite drop_all. split_and!; [done | constructor |].
  intros u. cbn. rewrite elem_of_nil. set_solver.
Qed.

Lemma index_ok_since_events es st n :
  index_ok_since n st → index_ok_since (last_emptied es st n) (run_events es st).
Proof.
  revert st n. induction es as [|e es IH]; intros st n H; [done |].
  cbn [run_events foldl last_emptied]. fold (run_events es (run_event e st)).
  apply IH. destruct e as [t | action doc]; cbn [is_rescan run_event].
  - by apply index_ok_since_task.
  - destruct (onMessage_cases action doc st) as [[-> ->] | [Hne ->]].
    + rewrite bool_decide_eq_true_2 by done. by eapply index_ok_since_rescan.
    + by rewrite bool_decide_eq_false_2.
Qed.

Lemma index_ok_since_initial els doc : index_ok_since 0 (initializeProtection els doc).
Proof.
  unfold index_ok_since.
  destruct (initializeProtection_frame els doc) as (-> & _ & -> & _).
  cbn. split_and!; [done | constructor |]. intros u. rewrite elem_of_nil. set_solver.
Qed.

Lemma last_emptied_none es st n : rescans es = 0%nat → last_emptied es st n = n.
Proof.
  revert st n. induction es as [|e es IH]; intros st n H; [done |].
  unfold rescans in H. cbn [List.filter last_emptied] in *.
  destruct (is_rescan e); [done |]. by apply IH.
Qed.

(** *** Requests are only ever added *)

Lemma requests_start l st :
  ∃ new, requests (analyzeLinkElement_start l st) = requests st ++ new.
Proof.
  destruct (start_cases l st) as [[_ ->] | (_ & _ & ->)];
    [exists []; by rewrite app_nil_r | by eexists].
Qed.

Lemma requests_analyze_all ls st :
  ∃ new, requests (analyze_all ls st) = requests st ++ new.
Proof.
  revert st. induction ls as [|l ls IH]; intros st; [exists []; by rewrite app_nil_r |].
  cbn [analyze_all foldl]. fold (analyze_all ls (analyzeLinkElement_start l st)).
  destruct (IH (analyzeLinkElement_start l st)) as (new2 & ->).
  destruct (requests_start l st) as (new1 & ->).
  exists (new1 ++ new2). by rewrite app_assoc.
Qed.

Lemma requests_task t st : ∃ new, requests (run_task t st) = requests st ++ new.
Proof.
  destruct t as [| ms | k o].
  - simpl. destruct (timers st) as [|tm q]; [exists []; by rewrite app_nil_r |].
    apply (requests_start _ (set_now _ (set_timers _ st))).
  - rewrite run_task_mutation. apply requests_analyze_all.
  - simpl. rewrite (proj1 (proj2 (resume_frame k o st))).
    exists []. by rewrite app_nil_r.
Qed.

Lemma requests_event e st : ∃ new, requests (run_event e st) = requests st ++ new.
Proof.
  destruct e as [t | action doc]; [apply requests_task |].
  exists []. rewrite app_nil_r. cbn.
  destruct (onMessage_cases action doc st) as [[_ ->] | [_ ->]]; [| done].
  apply rescanPage_frame.
Qed.

Lemma requests_events es st : ∃ new, requests (run_events es st) = requests st ++ new.
Proof.
  revert st. induction es as [|e es IH]; intros st; [exists []; by rewrite app_nil_r |].
  cbn [run_events foldl]. fold (run_events es (run_event e st)).
  destruct (IH (run_event e st)) as (new2 & ->).
  destruct (requests_event e st) as (new1 & ->).
  exists (new1 ++ new2). by rewrite app_assoc.
Qed.

(** Each time the index is emptied, a URL can be requested once more. *)
Lemma earlier_requests_events u es st n c :
  index_ok_since n st →
  (length (requested u (take n (requests st))) <= c)%nat →
  (length (requested u (take (last_emptied es st n) (requests (run_events es st))))
   <= c + rescans es)%nat.
Proof.
  revert st n c. induction es as [|e es IH]; intros st n c Hok Hc.
  { cbn [run_events foldl last_emptied]. unfold rescans. cbn [List.filter length]. lia. }
  cbn [run_events foldl last_emptied]. fold (run_events es (run_event e st)).
  destruct e as [t | action doc]; cbn [is_rescan run_event].
  - change (rescans (Task t :: es)) with (rescans es).
    apply IH; [by apply index_ok_since_task |].
    destruct (requests_task t st) as (new & ->).
    rewrite take_app_le by apply Hok. done.
  - destruct (onMessage_cases action doc st) as [[-> ->] | [Hne ->]].
    + rewrite bool_decide_eq_true_2 by done.
      assert (Er : rescans (Message "rescanPage" doc :: es) = S (rescans es)).
      { unfold rescans. cbn [List.filter is_rescan].
        by rewrite bool_decide_eq_true_2. }
      rewrite Er. replace (c + S (rescans es))%nat with (S c + rescans es)%nat by lia.
      apply IH; [by eapply index_ok_since_rescan |].
      rewrite (proj1 (proj2 (proj2 (rescanPage_frame doc st)))), firstn_all.
      rewrite <- (take_drop n (requests st)), requested_app, length_app.
      destruct Hok as (_ & Hnd & _).
      pose proof (requested_NoDup u _ Hnd). lia.
    + rewrite bool_decide_eq_false_2 by done.
      assert (Er : rescans (Message action doc :: es) = rescans es).
      { unfold rescans. cbn [List.filter is_rescan].
        by rewrite bool_decide_eq_false_2. }
      rewrite Er. by apply IH.
Qed.

Lemma requested_elem u (rs : list request) :
  (1 <= length (requested u rs))%nat → u ∈ req_url <$> rs.
Proof.
  intros H. destruct (decide (u ∈ req_url <$> rs)) as [Hin | Hout]; [done |].
  rewrite (requested_nil u rs Hout) in H. cbn in H. lia.
Qed.

End Dedup.

(** C3 — Dedup of scoring requests, as the code has it.  Whatever the page
    and however the scan's timers, the watcher's callbacks, the responses
    and the messages of the extension interleave: among the requests issued
    since the index was last emptied (by a [rescanPage] message; since the
    page was loaded if there was none) no URL occurs twice, and a URL is in
    the index exactly when it has one of them.  Hence a URL has at most one
    request more than there were [rescanPage] messages, issued or
    outstanding; without such a message the requests since the index was
    emptied are all the requests.  An http(s) URL has its request as soon
    as the timer of the last scan has fired for a link with that URL, or a
    mutation has inserted a subtree with such a link after the last
    message.  The membership test, the insertion and the [fetch] call are
    one synchronous step ([analyzeLinkElement_start]), so no task runs
    between them. *)
Theorem C3_one_request_per_url
    (els : gmap Content.elemId Content.element) (doc : list Content.node)
    (es : list Content.event) (u : string) :
  let st0 := Content.initializeProtection els doc in
  let st := Content.run_events es st0 in
  let recent := Props.recent es st0 in
  (length (Props.requested u recent) <= 1)%nat
  ∧ (u ∈ Content.analyzedLinks st ↔ length (Props.requested u recent) = 1%nat)
  ∧ (length (Props.dispatched u st) <= 1 + Props.rescans es)%nat
  ∧ (length (Props.outstanding u st) <= 1 + Props.rescans es)%nat
  ∧ (Props.rescans es = 0%nat → recent = Content.requests st)
  ∧ (Content.http_or_https u = true →
     (∃ l, l ∈ Content.querySelectorAll_document st0 (Props.last_scanned es doc)
           ∧ (l ∉ Content.timer_link <$> Content.timers st)
           ∧ Content.href_prop (Content.get st0 l) = u)
     ∨ (∃ es1 ts ms added n l,
          es = es1 ++ (Content.Task <$> ts) ∧ Content.Mutation ms ∈ ts
          ∧ added ∈ ms ∧ n ∈ added ∧ Props.inside l n
          ∧ Content.href_prop (Content.get st0 l) = u) →
     length (Props.requested u recent) = 1%nat).
Proof.
  intros st0 st recent.
  pose proof (index_ok_since_events es st0 0 (index_ok_since_initial els doc))
    as (Hn & Hnd & Hreg).
  change (NoDup (Content.req_url <$> recent)) in Hnd.
  change (∀ u, u ∈ Content.analyzedLinks st ↔ u ∈ Content.req_url <$> recent) in Hreg.
  assert (Hle : (length (Props.requested u recent) <= 1)%nat)
    by by apply requested_NoDup.
  assert (Hiff : u ∈ Content.analyzedLinks st ↔ length (Props.requested u recent) = 1%nat).
  { rewrite Hreg. split.
    - intros Hin%requested_some. lia.
    - intros E. apply requested_elem. lia. }
  assert (Hall : (length (Props.dispatched u st) <= 1 + Props.rescans es)%nat).
  { pose proof (earlier_requests_events u es st0 0 0 (index_ok_since_initial els doc)
                  ltac:(by rewrite take_0)) as Hold.
    unfold Props.dispatched.
    rewrite <- (take_drop (Props.last_emptied es st0 0) (Content.requests st)).
    rewrite requested_app, length_app.
    change (drop _ _) with recent. unfold st. lia. }
  split_and!; [done | done | done | | |].
  - etrans; [apply unsettled_le | exact Hall].
  - intros Hnone. unfold recent, Props.recent.
    by rewrite last_emptied_none.
  - intros Hq Hsub. apply Hiff.
    destruct Hsub as [(l & Hl & Hfired & <-)
                     | (es1 & ts & ms & added & n & l & -> & Hms & Ha & Hnode & Hl & <-)].
    + destruct (scan_progress_events st0 es doc st0 (same_links_refl _)
                  (scan_progress_initial els doc) l Hl) as [Hwait | Hdone];
        [done | by apply Hdone].
    + unfold st. rewrite run_events_app, run_events_tasks.
      apply (delivered_registered st0 _ ts ms l); try done; [apply same_links_events |].
      apply elem_of_delivered. exists added, n. split_and!; [done | done |].
      by apply added_links_inside.
Qed.

Lemma C3_one_request_per_url_witness :
  let es := [Content.Task Content.TimerFires; Content.Task Content.TimerFires;
             Content.Message "rescanPage" Examples.doc;
             Content.Task (Content.Mutation [[Content.Element 1%nat []]])] in
  let st0 := Content.initializeProtection Examples.els Examples.doc in
  length (Props.requested "http://a/" (Props.recent es st0)) = 1%nat
  ∧ (length (Props.dispatched "http://a/" (Content.run_events es st0)) <= 2)%nat.
Proof.
  intros es st0.
  destruct (C3_one_request_per_url Examples.els Examples.doc es "http://a/")
    as (_ & _ & Hall & _ & _ & Hone).
  split; [| exact Hall].
  apply Hone; [reflexivity |].
  right. exists (firstn 3 es), [Content.Mutation [[Content.Element 1%nat []]]],
           [[Content.Element 1%nat []]], [Content.Element 1%nat []],
           (Content.Element 1%nat []), 1%nat.
  split_and!; [reflexivity | apply list_elem_of_here | apply list_elem_of_here
               | apply list_elem_of_here | apply Props.inside_root | reflexivity].
Defined.

(** C3, as the specification words it, fails once the extension asks for a
    rescan: the anchor's URL is requested by the first scan and, the index
    having been emptied, again by the second, and both requests are
    outstanding. *)
Lemma C3_rescan_counterexample :
  let doc := [Content.Element 1%nat []] in
  let st := Content.run_events
              [Content.Task Content.TimerFires; Content.Message "rescanPage" doc;
               Content.Task Content.TimerFires]
              (Content.initializeProtection {[ 1%nat := Examples.anchor "http://a/" ]} doc) in
  Props.outstanding "http://a/" st = [0%nat; 1%nat]
  ∧ ¬ Props.one_outstanding_per_url.
Proof.
  split; [by vm_compute |].
  intros H.
  specialize (H {[ 1%nat := Examples.anchor "http://a/" ]} [Content.Element 1%nat []]
                [Content.Task Content.TimerFires;
                 Content.Message "rescanPage" [Content.Element 1%nat []];
                 Content.Task Content.TimerFires] "http://a/").
  vm_compute in H. lia.
Qed.

(** C7 — The stagger of the initial scan, as the code has it.  The scan
    gives the [j]-th [a[href]] element of the document (an HTML or an SVG
    anchor, http(s) or not, seen before or not) the slot [j * 100] ms, on a
    page whose last slot fits the 32-bit delay of [setTimeout].  A link
    whose URL is http(s) and occurs for the first time has its request
    issued in its own slot;
    every request is issued in the slot of its link, so the [k]-th request
    never goes out before [k * 100] ms and two consecutive requests are at
    least 100 ms apart; and when all the anchors are http(s) with distinct
    URLs, request [i] goes out at exactly [i * 100] ms. *)
Theorem C7_scan_stagger
    (els : gmap Content.elemId Content.element) (doc : list Content.node) :
  let links := Content.querySelectorAll_document (Content.fresh els) doc in
  let url l := Content.href_prop (Content.get (Content.fresh els) l) in
  let st := Content.run (replicate (length links) Content.TimerFires)
                        (Content.initializeProtection els doc) in
  Z.of_nat (length links) * 100 <= 2 ^ 31 →
  Content.timers st = []
  ∧ (∀ j l, links !! j = Some l →
            Content.http_or_https (url l) = true →
            url l ∉ url <$> take j links →
            Content.mkRequest (Z.of_nat j * 100) (url l) l ∈ Content.requests st)
  ∧ (∀ k r, Content.requests st !! k = Some r →
            ∃ j, links !! j = Some (Content.req_link r)
                 ∧ Content.req_url r = url (Content.req_link r)
                 ∧ Content.req_time r = Z.of_nat j * 100
                 ∧ (k <= j)%nat ∧ Z.of_nat k * 100 <= Content.req_time r)
  ∧ (∀ k r r', Content.requests st !! k = Some r →
               Content.requests st !! S k = Some r' →
               Content.req_time r + 100 <= Content.req_time r')
  ∧ (Forall (λ l, Content.http_or_https (url l) = true) links →
     NoDup (url <$> links) →
     ∀ i l, links !! i = Some l →
            Content.requests st !! i
            = Some (Content.mkRequest (Z.of_nat i * 100) (url l) l)).
Proof.
  intros links url st Hfit.
  destruct (run_slots links 0 (Content.initializeProtection els doc)) as (Hreq & Htm & _).
  { by rewrite initializeProtection_eq. }
  { by rewrite initializeProtection_eq. }
  fold st in Hreq, Htm.
  assert (E : Content.requests st = Props.staggered (Content.fresh els) ∅ 0 links).
  { rewrite Hreq, initializeProtection_eq by done. cbn [Content.requests Content.set_timers
      Content.fresh Content.analyzedLinks app].
    apply staggered_ext. done. }
  rewrite E. split_and!; [done | | | |].
  - intros j l Hj Hq Hfirst.
    by apply (staggered_first (Content.fresh els) ∅ 0 links j l).
  - intros k r Hk.
    destruct (staggered_source _ _ _ _ _ _ Hk) as (j & Hj & Hu & _ & Ht & Hkj).
    exists j. rewrite Ht. split_and!; try done. lia.
  - intros k r r'. apply staggered_gap.
  - intros Hq Hnd i l Hi. rewrite staggered_all; try done.
    by rewrite list_lookup_imap, Hi.
Qed.

Lemma C7_scan_stagger_witness :
  Content.mkRequest 300 "https://b/" 3%nat
  ∈ Content.requests
      (Content.run (replicate 4 Content.TimerFires)
         (Content.initializeProtection Examples.els Examples.doc))
  ∧ Content.mkRequest 100 "http://a/" 1%nat
    ∈ Content.requests
        (Content.run (replicate 2 Content.TimerFires)
           (Content.initializeProtection Examples.svg_els Examples.svg_doc)).
Proof.
  split.
  - destruct (C7_scan_stagger Examples.els Examples.doc ltac:(by vm_compute))
      as (_ & Hfirst & _).
    apply (Hfirst 3%nat 3%nat).
    + reflexivity.
    + reflexivity.
    + vm_compute. intros H%list_elem_of_In. simpl in H. intuition discriminate.
  - destruct (C7_scan_stagger Examples.svg_els Examples.svg_doc ltac:(by vm_compute))
      as (_ & Hfirst & _).
    apply (Hfirst 1%nat 1%nat).
    + reflexivity.
    + reflexivity.
    + vm_compute. intros H%list_elem_of_In. simpl in H. intuition discriminate.
Defined.

(** C7, as the specification words it, fails on a page whose first anchor
    is a mail link: the only request for the second anchor goes out at
    100 ms, so request 0 is not issued at 0 ms. *)
Lemma C7_request_index_counterexample :
  let st := Content.run (replicate 4 Content.TimerFires)
              (Content.initializeProtection Examples.els Examples.doc) in
  Content.requests st
  = [Content.mkRequest 100 "http://a/" 1%nat; Content.mkRequest 300 "https://b/" 3%nat]
  ∧ ¬ Props.ith_request_at_ith_slot Examples.els Examples.doc.
Proof.
  split; [by vm_compute |].
  intros H. specialize (H 0%nat (Content.mkRequest 100 "http://a/" 1%nat)).
  assert (E : Content.req_time (Content.mkRequest 100 "http://a/" 1%nat) = 0).
  { apply H. by vm_compute. }
  discriminate E.
Qed.

(** C8 — The mutation watcher dispatches at once.  Running the observer's
    callback creates no timer and does not move the clock; every request it
    issues is stamped with the time of the callback and is for an element
    of an inserted subtree.  Every element of an inserted subtree (the
    inserted node itself or a descendant at any depth) whose URL is http(s)
    is registered when the callback returns, and if its URL was not
    registered before, a request for it is among those just issued. *)
Theorem C8_mutation_dispatches_immediately
    (st : Content.page) (ms : list (list Content.node)) :
  let st' := Content.run_task (Content.Mutation ms) st in
  let url l := Content.href_prop (Content.get st l) in
  let inserted l := ∃ added n, added ∈ ms ∧ n ∈ added ∧ Props.inside l n in
  Content.timers st' = Content.timers st
  ∧ Content.now st' = Content.now st
  ∧ ∃ new,
      Content.requests st' = Content.requests st ++ new
      ∧ Forall (λ r, Content.req_time r = Content.now st
                     ∧ Content.req_url r = url (Content.req_link r)
                     ∧ inserted (Content.req_link r)) new
      ∧ ∀ l, inserted l →
             Content.http_or_https (url l) = true →
             url l ∈ Content.analyzedLinks st'
             ∧ (url l ∉ Content.analyzedLinks st →
                ∃ r, r ∈ new ∧ Content.req_url r = url l
                     ∧ Content.req_time r = Content.now st).
Proof.
  intros st' url inserted. unfold st'. rewrite run_task_mutation.
  destruct (analyze_all_frame (Props.delivered st ms) st) as (_ & Hn & Ht & _).
  split_and!; [done | done |].
  destruct (analyze_all_requests (Props.delivered st ms) st) as (new & Hreq & Hall & Hset).
  exists new. split_and!; [done | |].
  - eapply Forall_impl; [exact Hall |]. cbn. intros r (Htime & Hlink & Hurl).
    split_and!; [done | done |].
    apply elem_of_delivered in Hlink as (added & n & Ha & Hnode & Hl).
    exists added, n. split_and!; [done | done |]. by apply (inside_added_links st).
  - intros l (added & n & Ha & Hnode & Hin) Hq.
    assert (Hd : l ∈ Props.delivered st ms).
    { apply elem_of_delivered. exists added, n. split_and!; [done | done |].
      by apply added_links_inside. }
    assert (Hreg : url l ∈ Content.analyzedLinks (Props.analyze_all (Props.delivered st ms) st))
      by by apply registered_analyze_all.
    split; [done |]. intros Hnew. rewrite Hset in Hreg.
    apply elem_of_union in Hreg as [Hreg | Hreg]; [done |].
    apply elem_of_list_to_set, list_elem_of_fmap in Hreg as (r & Hu & Hr).
    exists r. rewrite Forall_forall in Hall. destruct (Hall r Hr) as (Htime & _ & _).
    done.
Qed.

Lemma C8_mutation_dispatches_immediately_witness :
  let st := Content.fresh {[ 5%nat := Examples.anchor "http://new/";
                             7%nat := Content.plain "DIV" None;
                             8%nat := Content.plain "P" None ]} in
  "http://new/"
  ∈ Content.analyzedLinks
      (Content.run_task
         (Content.Mutation [[Content.Element 7%nat
                               [Content.OtherNode;
                                Content.Element 8%nat [Content.Element 5%nat []]]]]) st).
Proof.
  intros st.
  destruct (C8_mutation_dispatches_immediately st
              [[Content.Element 7%nat
                  [Content.OtherNode; Content.Element 8%nat [Content.Element 5%nat []]]]])
    as (_ & _ & new & _ & _ & H).
  destruct (H 5%nat) as [Hin _].
  - eexists. eexists. split_and!; [apply list_elem_of_here | apply list_elem_of_here |].
    eapply Props.inside_child; [apply list_elem_of_further, list_elem_of_here |].
    eapply Props.inside_child; [apply list_elem_of_here |].
    apply Props.inside_root.
  - reflexivity.
  - exact Hin.
Defined.

(* ===================================================================== *)
(** ** Annotation and failure                                             *)
(* ===================================================================== *)

Section Annotation.
Import JS Content Props.

(** A request that is rejected, or whose body is not JSON or is [null],
    ends in the [catch] block: the element is left as it was and one error
    is logged. *)
Lemma annotate_throws ok e :
  annotate Rejected e = inl NetworkError
  ∧ annotate (Responded ok NotJson) e = inl SyntaxError
  ∧ annotate (Responded ok (Json JNull)) e = inl TypeError.
Proof. done. Qed.

Lemma resume_caught k o st r err :
  requests st !! k = Some r → k ∉ settled st →
  annotate o (get st (req_link r)) = inl err →
  analyzeLinkElement_resume k o st
  = log_error err (set_settled (λ s, s ∪ {[k]}) st).
Proof.
  intros Hr Hk Herr. unfold analyzeLinkElement_resume.
  rewrite Hr, bool_decide_eq_false_2 by done.
  change (get (set_settled _ st) (req_link r)) with (get st (req_link r)).
  by rewrite Herr.
Qed.

(** A registered URL is never requested again. *)
Lemma registered_not_retried l st :
  href_prop (get st l) ∈ analyzedLinks st → analyzeLinkElement_start l st = st.
Proof.
  intros H. by destruct (start_cases l st) as [[_ ->] | (Hnew & _ & _)].
Qed.

(** An object without [risk_score] leaves an attribute no click acts on. *)
Lemma undefined_score_fails_open user st id g :
  data_risk_score (get st id) = Some (score_toString SUndefined) →
  handleLinkClick user st (Some id) g = (None, g).
Proof.
  intros H. apply gate_allow. by rewrite H.
Qed.

End Annotation.

(** C4 — An error response is annotated like a score.  The anchor
    [http://a/] is scanned, and its request is answered with a non-success
    status and a JSON error body that has no [risk_score]:
    [analyzeLinkElement] never looks at [response.ok], so the element gets
    both data attributes (the string [undefined]) and a tooltip with the
    check-mark glyph, and nothing is logged.  (The specification asks for no
    annotation and a log entry on a failed request.) *)
Theorem C4_error_response_is_annotated :
  let st := Content.run
              [Content.TimerFires;
               Content.Settles 0 (JS.Responded false
                 (JS.Json (JS.JObject JS.SUndefined JS.VUndefined JS.VUndefined)))]
              (Content.initializeProtection {[ 1%nat := Examples.anchor "http://a/" ]}
                 [Content.Element 1%nat []]) in
  Content.get st 1%nat
  = Content.mkElement "A" (Some "http://a/") (Some "undefined") (Some "undefined")
      None None (Some "✅ Risk Score: undefined/100 - undefined") []
  ∧ Content.console_error st = [].
Proof. by vm_compute. Qed.

(** C9, as the specification words it, fails: a score of 25 (INFO) and a
    score of 10 (SAFE) leave the same border and background, namely the
    element's own. *)
Lemma C9_info_safe_counterexample : ¬ Props.distinct_style_per_tier.
Proof.
  intros H.
  by apply (H (Examples.anchor "http://a/") (JS.VStr "LOW RISK") 25 10).
Qed.

(** C9 — What the Annotation Engine writes when a score [s] arrives (a safe
    integer, with a level that is a string or such a number).  Both
    data attributes are set, to the score and the level as strings, and the
    tooltip names the score and the level behind a glyph that differs for
    each of the four tiers.  A border and a background are set for BLOCK
    (red) and WARN (amber) only; below 40 they stay what they were.  The
    glyph is appended as a badge exactly when [s >= 40]. *)
Theorem C9_annotation_by_tier
    (ok : bool) (s : Z) (level recommendation : JS.jsval) (e : Content.element) :
  JS.prints_plainly s → JS.prints_as_written level →
  let tooltip glyph :=
    Some (glyph +:+ " Risk Score: " +:+ JS.Number_toString s +:+ "/100 - "
                +:+ JS.ToString level) in
  ∃ e', Content.annotate
          (JS.Responded ok (JS.Json (JS.JObject (JS.SInt s) level recommendation))) e
        = inr e'
    ∧ Content.data_risk_score e' = Some (JS.Number_toString s)
    ∧ Content.data_risk_level e' = Some (JS.ToString level)
    ∧ Content.tagName e' = Content.tagName e ∧ Content.href e' = Content.href e
    ∧ (70 <= s →
       Content.style_border e' = Some "2px solid #ef4444"
       ∧ Content.style_backgroundColor e' = Some "#fee2e2"
       ∧ Content.title e' = tooltip "🚨"
       ∧ Content.badges e' = Content.badges e ++ ["🚨"])
    ∧ (40 <= s < 70 →
       Content.style_border e' = Some "2px solid #f59e0b"
       ∧ Content.style_backgroundColor e' = Some "#fef3c7"
       ∧ Content.title e' = tooltip "⚠️"
       ∧ Content.badges e' = Content.badges e ++ ["⚠️"])
    ∧ (20 <= s < 40 →
       Content.style_border e' = Content.style_border e
       ∧ Content.style_backgroundColor e' = Content.style_backgroundColor e
       ∧ Content.title e' = tooltip "ℹ️"
       ∧ Content.badges e' = Content.badges e)
    ∧ (s < 20 →
       Content.style_border e' = Content.style_border e
       ∧ Content.style_backgroundColor e' = Content.style_backgroundColor e
       ∧ Content.title e' = tooltip "✅"
       ∧ Content.badges e' = Content.badges e).
Proof.
  intros _ _ tooltip. eexists. split; [reflexivity |].
  unfold Content.addRiskIndicator, Content.indicator. cbn [JS.ToNumber JS.ge].
  destruct (Z.leb_spec 70 s) as [H70 | H70].
  { assert (H40 : (40 <=? s) = true) by (apply Z.leb_le; lia).
    cbn. rewrite H40. split_and!; try done; intros; lia. }
  destruct (Z.leb_spec 40 s) as [H40 | H40].
  { cbn. split_and!; try done; intros; lia. }
  destruct (Z.leb_spec 20 s) as [H20 | H20];
    cbn; split_and!; try done; intros; lia.
Qed.

Lemma C9_annotation_by_tier_witness :
  ∃ e', Content.annotate
          (JS.Responded true (JS.Json (JS.JObject (JS.SInt 25) (JS.VStr "LOW RISK")
                                                  JS.VUndefined)))
          (Examples.anchor "http://a/") = inr e'
        ∧ Content.style_border e' = None
        ∧ Content.title e' = Some "ℹ️ Risk Score: 25/100 - LOW RISK"
        ∧ Content.badges e' = [].
Proof.
  destruct (C9_annotation_by_tier true 25 (JS.VStr "LOW RISK") JS.VUndefined
              (Examples.anchor "http://a/") eq_refl I)
    as (e' & He & _ & _ & _ & _ & _ & _ & Hinfo & _).
  exists e'. destruct (Hinfo ltac:(lia)) as (Hb & _ & Ht & Hbd).
  split_and!; [exact He | exact Hb | exact Ht | exact Hbd].
Defined.

(* ===================================================================== *)
(** ** The out-of-band analysis                                           *)
(* ===================================================================== *)



(* ===================================================================== *)
(** ** From the response to the click                                     *)
(* ===================================================================== *)

Section Settlement.
Import JS Content Props More.


(** The continuation of an outstanding request, spelled out. *)
Lemma resume_outstanding k o st r :
  requests st !! k = Some r → k ∉ settled st →
  analyzeLinkElement_resume k o st
  = match annotate o (get st (req_link r)) with
    | inl err => log_error err (set_settled (λ s, s ∪ {[k]}) st)
    | inr e => set_element (req_link r) e (set_settled (λ s, s ∪ {[k]}) st)
    end.
Proof.
  intros Hr Hk. unfold analyzeLinkElement_resume.
  by rewrite Hr, bool_decide_eq_false_2.
Qed.


Lemma annotate_object ok sc lv rc e :
  annotate (Responded ok (Json (JObject sc lv rc))) e
  = inr (setAttribute_risk_level (ToString lv)
           (setAttribute_risk_score (score_toString sc) (addRiskIndicator sc lv e))).
Proof. done. Qed.

Lemma get_set_element_eq l e st : get (set_element l e st) l = e.
Proof. unfold get, set_element. cbn. by rewrite lookup_insert_eq. Qed.

Lemma get_set_element_ne l l' e st : l' ≠ l → get (set_element l e st) l' = get st l'.
Proof. intros H. unfold get, set_element. cbn. by rewrite lookup_insert_ne. Qed.





Lemma resume_skipped k o st :
  requests st !! k = None ∨ k ∈ settled st → analyzeLinkElement_resume k o st = st.
Proof.
  intros H. unfold analyzeLinkElement_resume.
  destruct (requests st !! k) as [r|]; [| done].
  destruct H as [H | H]; [done |]. by rewrite bool_decide_eq_true_2.
Qed.

Lemma settled_resume k o st :
  settled (analyzeLinkElement_resume k o st) = settled st
  ∨ settled (analyzeLinkElement_resume k o st) = settled st ∪ {[k]}.
Proof.
  unfold analyzeLinkElement_resume.
  destruct (requests st !! k) as [r|]; [| by left].
  case_bool_decide; [by left |]. right. by destruct (annotate _ _).
Qed.

Lemma get_resume_other k o st l :
  (∀ r, requests st !! k = Some r → req_link r ≠ l) →
  get (analyzeLinkElement_resume k o st) l = get st l.
Proof.
  intros H. unfold analyzeLinkElement_resume.
  destruct (requests st !! k) as [r|] eqn:Hr; [| done].
  case_bool_decide; [done |].
  destruct (annotate _ _); [done |].
  rewrite get_set_element_ne; [done |]. intros E. by apply (H r).
Qed.

(** *** What lasts *)

Lemma settled_event e st : settled st ⊆ settled (run_event e st).
Proof.
  destruct e as [[| ms | k o] | action doc]; cbn [run_event run_task].
  - destruct (timers st) as [|tm q]; [done |].
    by rewrite (proj1 (proj2 (proj2 (proj2 (start_frame _ _))))).
  - rewrite observer_callback_delivered.
    by rewrite (proj1 (proj2 (proj2 (proj2 (analyze_all_frame _ _))))).
  - destruct (settled_resume k o st) as [-> | ->]; set_solver.
  - destruct (onMessage_cases action doc st) as [[_ ->] | [_ ->]]; [| done].
    by rewrite (proj1 (proj2 (proj2 (proj2 (rescanPage_frame doc st))))).
Qed.

(** An element keeps what it has through whatever happens on the page, as
    long as no response arrives for a request that was issued for it. *)
Lemma get_events_other l es st :
  (∀ k o r, Task (Settles k o) ∈ es → k ∉ settled st →
            requests (run_events es st) !! k = Some r → req_link r ≠ l) →
  get (run_events es st) l = get st l.
Proof.
  revert st. induction es as [|e es IH]; intros st H; [done |].
  cbn [run_events foldl]. fold (run_events es (run_event e st)).
  rewrite IH.
  - destruct e as [[| ms | k o] | action doc]; cbn [run_event run_task].
    + destruct (timers st) as [|tm q]; [done |]. by rewrite get_start.
    + rewrite observer_callback_delivered. apply get_analyze_all.
    + destruct (decide (k ∈ settled st)) as [Hk | Hk];
        [by rewrite resume_skipped by by right |].
      apply get_resume_other. intros r Hr.
      apply (H k o r); [apply list_elem_of_here | done |].
      cbn [run_events foldl]. fold (run_events es (run_event (Task (Settles k o)) st)).
      destruct (requests_events es (run_event (Task (Settles k o)) st)) as (new & ->).
      apply lookup_app_l_Some. cbn [run_event run_task].
      by rewrite (proj1 (proj2 (resume_frame k o st))).
    + destruct (onMessage_cases action doc st) as [[_ ->] | [_ ->]]; [| done].
      unfold get. by rewrite (proj1 (proj2 (proj2 (proj2 (proj2 (rescanPage_frame doc st)))))).
  - intros k o r Hin Hk Hr. apply (H k o r); [by apply list_elem_of_further | | done].
    intros Hk'. apply Hk. by apply settled_event.
Qed.

(** The verdict on a click depends on the clicked element alone. *)
Lemma classify_get user st st' id g :
  get st' id = get st id → classify user st' (Some id) g = classify user st (Some id) g.
Proof. intros E. unfold classify, handleLinkClick. by rewrite E. Qed.

End Settlement.

(** X1 — From score to gate.  When an outstanding request is answered with
    a score [s] (a safe integer), the element it was issued for carries
    that score, a click on that element is DENY exactly when [s >= 70],
    WARN exactly when [40 <= s < 70] and ALLOW exactly when [s < 40], and
    every other element is left as it was.  The element keeps the score,
    and its clicks their verdict, through whatever timers, mutations,
    messages and responses follow, as long as none of these responses is
    for another request that was issued for the same element. *)
Theorem scored_link_is_gated
    (user : string → bool) (st : Content.page) (k : nat) (r : Content.request)
    (ok : bool) (s : Z) (level recommendation : JS.jsval) (g : Content.gate) :
  Content.requests st !! k = Some r →
  k ∉ Content.settled st →
  JS.prints_plainly s →
  let st' := Content.run_task
               (Content.Settles k
                  (JS.Responded ok (JS.Json (JS.JObject (JS.SInt s) level recommendation))))
               st in
  let l := Content.req_link r in
  Content.data_risk_score (Content.get st' l) = Some (JS.Number_toString s)
  ∧ (Content.classify user st' (Some l) g = Content.DENY ↔ 70 <= s)
  ∧ (Content.classify user st' (Some l) g = Content.WARN ↔ 40 <= s < 70)
  ∧ (Content.classify user st' (Some l) g = Content.ALLOW ↔ s < 40)
  ∧ (∀ l', l' ≠ l → Content.get st' l' = Content.get st l')
  ∧ (∀ es,
       (∀ k' o' r', Content.Task (Content.Settles k' o') ∈ es → k' ≠ k →
                    Content.requests (Content.run_events es st') !! k' = Some r' →
                    Content.req_link r' ≠ l) →
       Content.get (Content.run_events es st') l = Content.get st' l
       ∧ Content.classify user (Content.run_events es st') (Some l) g
         = Content.classify user st' (Some l) g).
Proof.
  intros Hr Hk _ st' l.
  assert (E : st' = Content.set_element l
                      (Content.setAttribute_risk_level (JS.ToString level)
                         (Content.setAttribute_risk_score (JS.Number_toString s)
                            (Content.addRiskIndicator (JS.SInt s) level (Content.get st l))))
                      (Content.set_settled (λ x, x ∪ {[k]}) st)).
  { unfold st'. cbn [Content.run_task].
    by rewrite (resume_outstanding k _ st r Hr Hk), annotate_object. }
  assert (Hattr : Content.data_risk_score (Content.get st' l)
                  = Some (JS.Number_toString s)).
  { rewrite E, get_set_element_eq. done. }
  pose proof (classify_annotated user st' l g s Hattr) as Hc.
  split_and!; [done | | | | |].
  - rewrite Hc. destruct (Z.leb_spec 70 s); [done |].
    destruct (Z.leb_spec 40 s); split; (done || lia).
  - rewrite Hc. destruct (Z.leb_spec 70 s); [split; (done || lia) |].
    destruct (Z.leb_spec 40 s); split; (done || lia).
  - rewrite Hc. destruct (Z.leb_spec 70 s); [split; (done || lia) |].
    destruct (Z.leb_spec 40 s); split; (done || lia).
  - intros l' Hne. rewrite E. by rewrite get_set_element_ne.
  - intros es Hes.
    assert (Hget : Content.get (Content.run_events es st') l = Content.get st' l).
    { apply get_events_other. intros k' o' r' Hin Hk' Hr'.
      apply (Hes k' o' r'); [done | | done].
      intros ->. apply Hk'. rewrite E. cbn. set_solver. }
    split; [done | by apply classify_get].
Qed.

Lemma scored_link_is_gated_witness :
  let st := Content.run [Content.TimerFires]
              (Content.initializeProtection {[ 1%nat := Examples.anchor "http://a/" ]}
                 [Content.Element 1%nat []]) in
  let hi := JS.Responded true (JS.Json (JS.JObject (JS.SInt 85) (JS.VStr "HIGH RISK")
                                                   JS.VUndefined)) in
  Content.classify Examples.yes
    (Content.run_events
       [Content.Task (Content.Mutation [[Content.Element 1%nat []]]);
        Content.Task (Content.Settles 0 JS.Rejected)]
       (Content.run_task (Content.Settles 0 hi) st))
    (Some 1%nat) Examples.untouched_event
  = Content.DENY.
Proof.
  intros st hi.
  destruct (scored_link_is_gated Examples.yes st 0 (Content.mkRequest 0 "http://a/" 1%nat)
              true 85 (JS.VStr "HIGH RISK") JS.VUndefined Examples.untouched_event
              eq_refl ltac:(set_solver) eq_refl) as (_ & Hdeny & _ & _ & _ & Hlast).
  destruct (Hlast [Content.Task (Content.Mutation [[Content.Element 1%nat []]]);
                   Content.Task (Content.Settles 0 JS.Rejected)]) as [_ Hsame].
  - intros k' o' r' Hin Hne Hr'.
    apply elem_of_cons in Hin as [[=] | Hin].
    apply list_elem_of_singleton in Hin as [= -> ->]. done.
  - exact (eq_trans Hsame (proj2 Hdeny ltac:(lia))).
Defined.





(* ===================================================================== *)
(** ** Which elements get annotated                                       *)
(* ===================================================================== *)

Section Links.
Import JS Content Props More.

Lemma NoDup_fmap_eq {A B} (f : A → B) (l : list A) x y :
  NoDup (f <$> l) → x ∈ l → y ∈ l → f x = f y → x = y.
Proof.
  induction l as [|a l IH]; [by intros _ ?%elem_of_nil |].
  rewrite fmap_cons. intros [Hnotin Hnd]%NoDup_cons Hx Hy E.
  apply elem_of_cons in Hx as [-> | Hx]; apply elem_of_cons in Hy as [-> | Hy].
  - done.
  - destruct Hnotin. rewrite E. by apply list_elem_of_fmap_2.
  - destruct Hnotin. rewrite <- E. by apply list_elem_of_fmap_2.
  - by apply IH.
Qed.

Lemma links_ok_start st0 l st :
  same_links st0 st → links_ok st0 st → links_ok st0 (analyzeLinkElement_start l st).
Proof.
  intros Hsame [Hurl Hun].
  destruct (start_cases l st) as [[_ ->] | (_ & _ & ->)]; [done |].
  split; cbn [requests].
  - intros r [Hr | ->%list_elem_of_singleton]%elem_of_app; [by apply Hurl |].
    cbn. by apply same_links_href.
  - intros l'. rewrite fmap_app, not_elem_of_app. intros [Hl' _].
    unfold get. cbn [elements]. by apply Hun.
Qed.

Lemma links_ok_analyze_all st0 ls st :
  same_links st0 st → links_ok st0 st → links_ok st0 (analyze_all ls st).
Proof.
  revert st. induction ls as [|l ls IH]; intros st Hsame Hok; [done |].
  cbn [analyze_all foldl]. fold (analyze_all ls (analyzeLinkElement_start l st)).
  apply IH; [| by apply links_ok_start].
  eapply same_links_trans; [exact Hsame |].
  apply same_links_elements. by rewrite (proj1 (start_frame _ _)).
Qed.

Lemma links_ok_resume st0 k o st :
  links_ok st0 st → links_ok st0 (analyzeLinkElement_resume k o st).
Proof.
  intros [Hurl Hun]. unfold analyzeLinkElement_resume.
  destruct (requests st !! k) as [r|] eqn:Hr; [| done].
  case_bool_decide; [done |].
  destruct (annotate _ _) as [err | e']; [done |].
  split; [done |]. cbn [requests set_element set_settled].
  intros l Hl. rewrite get_set_element_ne; [by apply Hun |].
  intros ->. apply Hl. apply list_elem_of_fmap_2.
  apply list_elem_of_lookup. eauto.
Qed.

Lemma links_ok_task st0 t st :
  same_links st0 st → links_ok st0 st → links_ok st0 (run_task t st).
Proof.
  intros Hsame Hok. destruct t as [| ms | k o].
  - simpl. destruct (timers st) as [|tm q]; [done |].
    by apply (links_ok_start st0 _ (set_now _ (set_timers _ st))).
  - rewrite run_task_mutation. by apply links_ok_analyze_all.
  - by apply links_ok_resume.
Qed.

Lemma links_ok_run st0 ts st :
  same_links st0 st → links_ok st0 st → links_ok st0 (run ts st).
Proof.
  revert st. induction ts as [|t ts IH]; intros st Hsame Hok; [done |].
  apply IH; [| by apply links_ok_task].
  eapply same_links_trans; [exact Hsame | apply same_links_task].
Qed.


Lemma links_ok_initial els doc :
  links_ok (initializeProtection els doc) (initializeProtection els doc).
Proof.
  split; [| done].
  destruct (initializeProtection_frame els doc) as (_ & _ & -> & _).
  by intros r ?%elem_of_nil.
Qed.

End Links.

(** X4 — Of several elements with the same URL, one is annotated.  Start
    from the scan of any page and let timers, mutations and responses come
    in any order.  Two different elements whose hrefs are equal never both
    have a request; and an element without a request is exactly as the page
    delivered it, so a click on it is handled as if nothing had been
    scored. *)
Theorem only_requested_links_are_annotated
    (user : string → bool) (els : gmap Content.elemId Content.element)
    (doc : list Content.node) (ts : list Content.task) :
  let st0 := Content.initializeProtection els doc in
  let st := Content.run ts st0 in
  (∀ l1 l2, l1 ≠ l2 →
            Content.href_prop (Content.get st0 l1) = Content.href_prop (Content.get st0 l2) →
            l1 ∉ Content.req_link <$> Content.requests st
            ∨ l2 ∉ Content.req_link <$> Content.requests st)
  ∧ (∀ l, l ∉ Content.req_link <$> Content.requests st →
          Content.get st l = Content.get st0 l
          ∧ ∀ g, Content.handleLinkClick user st (Some l) g
                 = Content.handleLinkClick user st0 (Some l) g).
Proof.
  intros st0 st.
  destruct (links_ok_run st0 ts st0 (same_links_refl _) (links_ok_initial els doc))
    as [Hurl Hun]. fold st in Hurl, Hun.
  destruct (index_ok_run ts st0 (index_ok_initial els doc)) as [Hnd _]. fold st in Hnd.
  split.
  - intros l1 l2 Hne Hhref.
    destruct (decide (l1 ∈ Content.req_link <$> Content.requests st)) as [H1 | H1];
      [| by left].
    destruct (decide (l2 ∈ Content.req_link <$> Content.requests st)) as [H2 | H2];
      [| by right].
    apply list_elem_of_fmap in H1 as (r1 & -> & Hr1).
    apply list_elem_of_fmap in H2 as (r2 & -> & Hr2).
    destruct Hne. f_equal.
    apply (NoDup_fmap_eq Content.req_url (Content.requests st)); try done.
    by rewrite (Hurl r1 Hr1), (Hurl r2 Hr2).
  - intros l Hl. pose proof (Hun l Hl) as E. split; [done |].
    intros g. unfold Content.handleLinkClick. by rewrite E.
Qed.

Lemma only_requested_links_are_annotated_witness :
  let st := Content.run
              [Content.TimerFires; Content.TimerFires; Content.TimerFires;
               Content.Settles 0
                 (JS.Responded true (JS.Json (JS.JObject (JS.SInt 85) (JS.VStr "HIGH RISK")
                                                         JS.VUndefined)))]
              (Content.initializeProtection Examples.els Examples.doc) in
  Content.get st 2%nat = Examples.anchor "http://a/".
Proof.
  intros st.
  destruct (only_requested_links_are_annotated Examples.yes Examples.els Examples.doc
              [Content.TimerFires; Content.TimerFires; Content.TimerFires;
               Content.Settles 0
                 (JS.Responded true (JS.Json (JS.JObject (JS.SInt 85) (JS.VStr "HIGH RISK")
                                                         JS.VUndefined)))])
    as [_ Hun].
  destruct (Hun 2%nat) as [Hget _].
  - vm_compute. intros H%list_elem_of_In. simpl in H. intuition discriminate.
  - exact Hget.
Defined.

(** X5 — A later, lower score does not take the warning off the element.
    If an element was annotated with a score of 70 or more and is annotated
    again with a score below 40 (a safe integer), its score attribute is
    the new one and a click on it is no longer intercepted, but it still
    has the red border and background and the siren badge of the first
    annotation. *)
Theorem lower_score_keeps_the_old_warning
    (user : string → bool) (ok1 ok2 : bool) (s1 s2 : Z)
    (lv1 lv2 rc1 rc2 : JS.jsval) (e e1 e2 : Content.element) :
  70 <= s1 → s2 < 40 → JS.prints_plainly s2 →
  Content.annotate (JS.Responded ok1 (JS.Json (JS.JObject (JS.SInt s1) lv1 rc1))) e = inr e1 →
  Content.annotate (JS.Responded ok2 (JS.Json (JS.JObject (JS.SInt s2) lv2 rc2))) e1 = inr e2 →
  Content.data_risk_score e2 = Some (JS.Number_toString s2)
  ∧ Content.style_border e2 = Some "2px solid #ef4444"
  ∧ Content.style_backgroundColor e2 = Some "#fee2e2"
  ∧ Content.badges e2 = Content.badges e ++ ["🚨"]
  ∧ ∀ st id g, Content.get st id = e2 →
               Content.handleLinkClick user st (Some id) g = (None, g).
Proof.
  intros H1 H2 _ [= <-] [= <-].
  assert (G70 : (70 <=? s1) = true) by (apply Z.leb_le; lia).
  assert (G40 : (40 <=? s1) = true) by (apply Z.leb_le; lia).
  assert (L70 : (70 <=? s2) = false) by (apply Z.leb_gt; lia).
  assert (L40 : (40 <=? s2) = false) by (apply Z.leb_gt; lia).
  unfold Content.addRiskIndicator, Content.indicator. cbn [JS.ToNumber JS.ge].
  rewrite G70, L70, L40. cbn. rewrite G40.
  split_and!; [done | | | |].
  1-3: by destruct (20 <=? s2).
  intros st id g Hget. apply gate_allow. rewrite Hget.
  assert (Hattr : Content.data_risk_score
            (Content.get (Content.set_element id
               (Content.mkElement EmptyString None (Some (JS.Number_toString s2))
                  None None None None []) (Content.fresh ∅)) id)
          = Some (JS.Number_toString s2)) by by rewrite get_set_element_eq.
  pose proof (riskScore_annotated _ _ _ Hattr) as Hscore.
  rewrite get_set_element_eq in Hscore. cbn in Hscore.
  destruct (20 <=? s2); cbn; rewrite Hscore; apply ge_Num_false; lia.
Qed.

Lemma lower_score_keeps_the_old_warning_witness :
  ∃ e1 e2,
    Content.annotate (JS.Responded true (JS.Json (JS.JObject (JS.SInt 85) (JS.VStr "HIGH RISK")
                                                               JS.VUndefined)))
      (Examples.anchor "http://a/") = inr e1
    ∧ Content.annotate (JS.Responded true (JS.Json (JS.JObject (JS.SInt 10) (JS.VStr "SAFE")
                                                                 JS.VUndefined))) e1 = inr e2
    ∧ Content.data_risk_score e2 = Some "10"
    ∧ Content.style_border e2 = Some "2px solid #ef4444".
Proof.
  eexists. eexists. split; [reflexivity |]. split; [reflexivity |].
  destruct (lower_score_keeps_the_old_warning Examples.yes true true 85 10
              (JS.VStr "HIGH RISK") (JS.VStr "SAFE") JS.VUndefined JS.VUndefined
              (Examples.anchor "http://a/") _ _ ltac:(lia) ltac:(lia) eq_refl
              eq_refl eq_refl)
    as (Ha & Hb & _).
  split; [exact Ha | exact Hb].
Defined.

(** X6 — Badges pile up.  Annotating an element a second time with the same
    answer, of score 40 or more, leaves its attributes, border, background
    and tooltip as the first time and appends the glyph once more: the
    element then carries the badge twice. *)
Theorem second_annotation_adds_a_badge
    (ok : bool) (s : Z) (lv rc : JS.jsval) (e e1 e2 : Content.element) :
  40 <= s →
  let o := JS.Responded ok (JS.Json (JS.JObject (JS.SInt s) lv rc)) in
  Content.annotate o e = inr e1 →
  Content.annotate o e1 = inr e2 →
  let glyph := if 70 <=? s then "🚨" else "⚠️" in
  Content.badges e1 = Content.badges e ++ [glyph]
  ∧ Content.badges e2 = Content.badges e ++ [glyph; glyph]
  ∧ Content.data_risk_score e2 = Content.data_risk_score e1
  ∧ Content.data_risk_level e2 = Content.data_risk_level e1
  ∧ Content.style_border e2 = Content.style_border e1
  ∧ Content.style_backgroundColor e2 = Content.style_backgroundColor e1
  ∧ Content.title e2 = Content.title e1.
Proof.
  intros H40 o [= <-] [= <-].
  assert (G40 : (40 <=? s) = true) by (apply Z.leb_le; lia).
  unfold Content.addRiskIndicator, Content.indicator. cbn [JS.ToNumber JS.ge].
  destruct (70 <=? s); cbn; rewrite ?G40; cbn; rewrite ?G40;
    split_and!; try done; by rewrite <- app_assoc.
Qed.

Lemma second_annotation_adds_a_badge_witness :
  ∃ e1 e2,
    Content.annotate (JS.Responded true (JS.Json (JS.JObject (JS.SInt 55) (JS.VStr "MEDIUM RISK")
                                                               JS.VUndefined)))
      (Examples.anchor "http://a/") = inr e1
    ∧ Content.annotate (JS.Responded true (JS.Json (JS.JObject (JS.SInt 55) (JS.VStr "MEDIUM RISK")
                                                                 JS.VUndefined))) e1 = inr e2
    ∧ Content.badges e2 = ["⚠️"; "⚠️"].
Proof.
  eexists. eexists. split; [reflexivity |]. split; [reflexivity |].
  destruct (second_annotation_adds_a_badge true 55 (JS.VStr "MEDIUM RISK") JS.VUndefined
              (Examples.anchor "http://a/") _ _ ltac:(lia) eq_refl eq_refl)
    as (_ & Hb & _).
  exact Hb.
Defined.

(* ===================================================================== *)
(** ** Mutations: bursts and no-ops                                       *)
(* ===================================================================== *)

Section Bursts.
Import JS Content Props More.

Lemma analyze_all_fresh ls st :
  Forall (λ l, http_or_https (href_prop (get st l)) = true) ls →
  NoDup ((λ l, href_prop (get st l)) <$> ls) →
  (∀ l, l ∈ ls → href_prop (get st l) ∉ analyzedLinks st) →
  requests (analyze_all ls st)
  = requests st ++ ((λ l, mkRequest (now st) (href_prop (get st l)) l) <$> ls).
Proof.
  revert st. induction ls as [|l ls IH]; intros st Hq Hnd Hnew.
  { cbn. by rewrite app_nil_r. }
  apply Forall_cons in Hq as [Hq Hqs]. rewrite fmap_cons in Hnd.
  apply NoDup_cons in Hnd as [Hnotin Hnd].
  cbn [analyze_all foldl]. fold (analyze_all ls (analyzeLinkElement_start l st)).
  destruct (start_frame l st) as (He & Hn & _).
  assert (Hget : ∀ i, get (analyzeLinkElement_start l st) i = get st i)
    by (intros i; apply get_start).
  rewrite IH.
  - rewrite Hn. rewrite fmap_cons.
    destruct (start_cases l st) as [[[Hin | Hno] _] | (_ & _ & ->)].
    + destruct (Hnew l (list_elem_of_here _ _) Hin).
    + congruence.
    + cbn [requests]. rewrite <- app_assoc. cbn [app]. do 2 f_equal.
  - eapply Forall_impl; [exact Hqs |]. cbn. intros i Hi. by rewrite Hget.
  - erewrite list_fmap_ext; [exact Hnd |]. intros ? i _. cbn. by rewrite Hget.
  - intros i Hi. rewrite Hget.
    destruct (start_cases l st) as [[_ ->] | (_ & _ & ->)].
    + apply Hnew. by apply list_elem_of_further.
    + cbn [analyzedLinks]. rewrite not_elem_of_union, not_elem_of_singleton. split.
      * apply Hnew. by apply list_elem_of_further.
      * intros E. apply Hnotin. rewrite <- E.
        apply list_elem_of_fmap. by exists i.
Qed.

Lemma analyze_all_known ls st :
  Forall (λ l, href_prop (get st l) ∈ analyzedLinks st
               ∨ http_or_https (href_prop (get st l)) = false) ls →
  analyze_all ls st = st.
Proof.
  induction 1 as [|l ls Hl _ IH]; [done |].
  cbn [analyze_all foldl].
  assert (E : analyzeLinkElement_start l st = st).
  { destruct (start_cases l st) as [[_ E] | (Hnew & Hq & _)]; [done |].
    destruct Hl; [done | congruence]. }
  by rewrite E.
Qed.

End Bursts.

(** X7 — A mutation is not throttled.  When the links a mutation delivers
    are http(s), pairwise different in URL and not yet in the index, the
    callback issues one request per link, in the order of the links, all of
    them at the time of the callback. *)
Theorem mutation_burst_is_not_throttled
    (st : Content.page) (ms : list (list Content.node)) :
  let links := Props.delivered st ms in
  let url l := Content.href_prop (Content.get st l) in
  Forall (λ l, Content.http_or_https (url l) = true) links →
  NoDup (url <$> links) →
  (∀ l, l ∈ links → url l ∉ Content.analyzedLinks st) →
  Content.requests (Content.run_task (Content.Mutation ms) st)
  = Content.requests st
    ++ ((λ l, Content.mkRequest (Content.now st) (url l) l) <$> links).
Proof.
  intros links url Hq Hnd Hnew. rewrite run_task_mutation.
  by apply analyze_all_fresh.
Qed.

Lemma mutation_burst_is_not_throttled_witness :
  let st := Content.fresh {[ 5%nat := Examples.anchor "http://n1/";
                             6%nat := Examples.anchor "http://n2/";
                             7%nat := (Content.plain "DIV" None) ]} in
  Content.requests
    (Content.run_task
       (Content.Mutation [[Content.Element 7%nat [Content.Element 5%nat [];
                                                  Content.Element 6%nat []]]]) st)
  = [Content.mkRequest 0 "http://n1/" 5%nat; Content.mkRequest 0 "http://n2/" 6%nat].
Proof.
  intros st.
  apply (mutation_burst_is_not_throttled st
           [[Content.Element 7%nat [Content.Element 5%nat []; Content.Element 6%nat []]]]).
  - assert (E : Props.delivered st
                  [[Content.Element 7%nat [Content.Element 5%nat []; Content.Element 6%nat []]]]
                = [5%nat; 6%nat]) by reflexivity.
    rewrite E. by repeat constructor.
  - vm_compute. apply NoDup_ListNoDup. repeat constructor; simpl; intuition discriminate.
  - intros l Hl. apply not_elem_of_empty.
Defined.

(** X8 — Links that are known or not http(s) cost nothing.  A mutation whose
    links are all either already in the index or not http(s) leaves the
    page state exactly as it was: no request, no timer, no change to the
    index. *)
Theorem known_links_cost_nothing
    (st : Content.page) (ms : list (list Content.node)) :
  Forall (λ l, Content.href_prop (Content.get st l) ∈ Content.analyzedLinks st
               ∨ Content.http_or_https (Content.href_prop (Content.get st l)) = false)
         (Props.delivered st ms) →
  Content.run_task (Content.Mutation ms) st = st.
Proof.
  intros H. rewrite run_task_mutation. by apply analyze_all_known.
Qed.

Lemma known_links_cost_nothing_witness :
  let st := Content.fresh {[ 5%nat := Examples.anchor "mailto:x@y.z" ]} in
  Content.run_task (Content.Mutation [[Content.Element 5%nat []; Content.OtherNode]]) st = st.
Proof.
  intros st. apply known_links_cost_nothing.
  assert (E : Props.delivered st [[Content.Element 5%nat []; Content.OtherNode]] = [5%nat])
    by reflexivity.
  rewrite E. constructor; [by right | constructor].
Defined.

(* ===================================================================== *)
(** ** Responses in any order                                             *)
(* ===================================================================== *)

Section Completion.
Import JS Content Props More.



End Completion.



(* ===================================================================== *)
(** ** Scanning again                                                     *)
(* ===================================================================== *)

Section Rescan.
Import JS Content Props More.

Lemma forEach_setTimeout_later ls i st q :
  timers st = q → Forall (λ t, due t <= now st + Z.of_nat i * 100) q →
  Z.of_nat (i + length ls) * 100 <= 2 ^ 31 →
  forEach_setTimeout i ls st = set_timers (λ _, q ++ (later (now st) <$> slots i ls)) st.
Proof.
  revert i st q. induction ls as [|l ls IH]; intros i st q Hq Hle Hfit.
  - simpl. unfold slots. simpl. rewrite app_nil_r. subst q. by destruct st.
  - cbn [forEach_setTimeout]. cbn [length] in Hfit.
    assert (E : setTimeout l (Z.of_nat i * 100) st
                = set_timers (λ _, q ++ [mkTimer (now st + Z.of_nat i * 100) l]) st).
    { unfold setTimeout, set_timers. rewrite Hq, timeout_small by lia.
      rewrite enqueue_last; [done |]. simpl. exact Hle. }
    rewrite E.
    rewrite (IH (S i) _ (q ++ [mkTimer (now st + Z.of_nat i * 100) l])); [| done | |].
    + rewrite slots_cons, fmap_cons. unfold set_timers, later at 2. simpl.
      by rewrite <- app_assoc.
    + cbn [now set_timers]. apply Forall_app. split.
      * eapply Forall_impl; [exact Hle |]. simpl. intros t. lia.
      * repeat constructor. simpl. lia.
    + lia.
Qed.

Lemma run_later ls i st t0 :
  timers st = later t0 <$> slots i ls → now st <= t0 + Z.of_nat i * 100 →
  let st' := run (replicate (length ls) TimerFires) st in
  let new := staggered st (analyzedLinks st) i ls in
  requests st' = requests st ++ (delay t0 <$> new)
  ∧ timers st' = [] ∧ elements st' = elements st
  ∧ analyzedLinks st' = analyzedLinks st ∪ list_to_set (req_url <$> new).
Proof.
  revert i st. induction ls as [|l ls IH]; intros i st Ht Hnow.
  - simpl. rewrite app_nil_r, union_empty_r_L. done.
  - rewrite slots_cons, fmap_cons in Ht. cbn [length replicate run foldl run_task].
    rewrite Ht. cbn [timer_link due later].
    rewrite Z.max_r by done.
    set (mid := set_now (t0 + Z.of_nat i * 100)
                        (set_timers (λ _, later t0 <$> slots (S i) ls) st)).
    fold (run (replicate (length ls) TimerFires) (analyzeLinkElement_start l mid)).
    destruct (start_frame l mid) as (He & Hn & Htm & _).
    destruct (IH (S i) (analyzeLinkElement_start l mid)) as (IH1 & IH2 & IH3 & IH4).
    { by rewrite Htm. }
    { rewrite Hn. simpl. lia. }
    cbv zeta. rewrite IH1, IH2, IH3, IH4, He.
    rewrite (staggered_ext _ st) by (by rewrite He).
    cbn [staggered]. change (get st l) with (get mid l).
    destruct (start_cases l mid) as [[Hskip ->] | (Hnew & Hq & ->)];
      cbn [requests analyzedLinks]; change (analyzedLinks mid) with (analyzedLinks st).
    + assert (Hb : bool_decide (href_prop (get mid l) ∈ analyzedLinks st)
                   || negb (http_or_https (href_prop (get mid l))) = true).
      { destruct Hskip as [Hin | Hno].
        - by rewrite bool_decide_eq_true_2.
        - rewrite Hno. by rewrite orb_true_r. }
      by rewrite Hb.
    + rewrite bool_decide_eq_false_2, Hq by done. cbn [orb negb].
      rewrite !fmap_cons. cbn [req_url list_to_set]. unfold delay at 2. cbn.
      rewrite <- app_assoc. cbn [app]. rewrite (assoc_L (∪)).
      split_and!; done.
Qed.

End Rescan.

(** X10 — A rescan forgets the index and requests the page again.  When no
    timer is pending, a [rescanPage] message followed by the firing of its
    timers leaves the elements as they are and appends new requests: one
    for every anchor whose URL is http(s) and has not occurred earlier in
    the document, issued at the slot the anchor has among the [a[href]]
    elements (HTML and SVG) counted from the time of the rescan, whether
    or not that URL was requested, scored or still outstanding before.
    Afterwards the index holds exactly the URLs of the new requests.  The
    last slot is assumed to fit the 32-bit delay of [setTimeout]. *)
Theorem rescan_requests_the_page_again (st : Content.page) (doc : list Content.node) :
  Content.timers st = [] →
  let links := Content.querySelectorAll_document st doc in
  let url l := Content.href_prop (Content.get st l) in
  let st' := Content.run_events (Content.Message "rescanPage" doc
                                   :: replicate (length links) (Content.Task Content.TimerFires))
                                st in
  Z.of_nat (length links) * 100 <= 2 ^ 31 →
  Content.elements st' = Content.elements st
  ∧ ∃ new,
      Content.requests st' = Content.requests st ++ new
      ∧ Content.analyzedLinks st' = list_to_set (Content.req_url <$> new)
      ∧ (∀ j l, links !! j = Some l →
                Content.http_or_https (url l) = true →
                url l ∉ url <$> take j links →
                Content.mkRequest (Content.now st + Z.of_nat j * 100) (url l) l ∈ new)
      ∧ (∀ r, r ∈ new → Content.now st <= Content.req_time r
                        ∧ Content.http_or_https (Content.req_url r) = true).
Proof.
  intros Ht links url st' Hfit.
  assert (Est : st' = Content.run (replicate (length links) Content.TimerFires)
                        (Content.rescanPage doc st)).
  { unfold st'. cbn [Content.run_events foldl Content.run_event].
    fold (Content.run_events (replicate (length links) (Content.Task Content.TimerFires))
            (Content.onMessage "rescanPage" doc st)).
    by rewrite <- fmap_replicate, run_events_tasks. }
  clearbody st'. subst st'.
  set (st' := Content.run _ _).
  set (st1 := Content.set_analyzedLinks (λ _, ∅) st).
  assert (E : Content.rescanPage doc st
              = Content.set_timers (λ _, More.later (Content.now st) <$> Props.slots 0 links) st1).
  { unfold Content.rescanPage, Content.scanAllLinks. fold st1.
    rewrite (forEach_setTimeout_later _ 0 st1 []); [done | done | constructor | done]. }
  destruct (run_later links 0 (Content.rescanPage doc st) (Content.now st))
    as (Hreq & _ & Hel & Hidx).
  { by rewrite E. }
  { rewrite E. cbn. lia. }
  fold st' in Hreq, Hel, Hidx.
  assert (Hst : Props.staggered (Content.rescanPage doc st)
                  (Content.analyzedLinks (Content.rescanPage doc st)) 0 links
                = Props.staggered st ∅ 0 links).
  { rewrite E. cbn [Content.analyzedLinks Content.set_timers Content.set_analyzedLinks st1].
    by apply staggered_ext. }
  rewrite Hst in Hreq, Hidx.
  split; [by rewrite Hel, E |].
  exists (More.delay (Content.now st) <$> Props.staggered st ∅ 0 links).
  split_and!.
  - rewrite Hreq, E. done.
  - rewrite Hidx, E. cbn [Content.analyzedLinks Content.set_timers Content.set_analyzedLinks st1].
    rewrite union_empty_l_L. f_equal. rewrite <- list_fmap_compose.
    by apply list_fmap_ext.
  - intros j l Hj Hq Hfirst.
    pose proof (staggered_first st ∅ 0 links j l Hj Hq (not_elem_of_empty _) Hfirst) as Hin.
    apply (list_elem_of_fmap_2 (More.delay (Content.now st))) in Hin.
    exact Hin.
  - intros r (r0 & -> & Hr0)%list_elem_of_fmap.
    apply list_elem_of_lookup in Hr0 as [k Hk].
    destruct (staggered_source _ _ _ _ _ _ Hk) as (j & _ & _ & Hq & Htime & _).
    cbn. rewrite Htime. split; [lia | done].
Qed.

Lemma rescan_requests_the_page_again_witness :
  let st := Content.run [Content.TimerFires]
              (Content.initializeProtection {[ 1%nat := Examples.anchor "http://a/" ]}
                 [Content.Element 1%nat []]) in
  Content.elements
    (Content.run_events [Content.Message "rescanPage" [Content.Element 1%nat []];
                         Content.Task Content.TimerFires] st)
  = Content.elements st.
Proof.
  intros st.
  destruct (rescan_requests_the_page_again st [Content.Element 1%nat []] eq_refl
              ltac:(by vm_compute)) as [He _].
  exact He.
Defined.

(* ===================================================================== *)
(** ** The buttons of the warning modal                                   *)
(* ===================================================================== *)

Section Buttons.
Import JS Content Props Surface.

Lemma remove_child_below k os :
  Forall (λ o, (key o < k)%nat) os → remove_child k os = os.
Proof.
  induction 1 as [|o os Ho _ IH]; [done |].
  unfold remove_child in *. cbn [List.filter].
  rewrite (proj2 (Nat.eqb_neq _ _)) by lia. cbn. by rewrite IH.
Qed.

Lemma remove_child_app k os os' :
  remove_child k (os ++ os') = remove_child k os ++ remove_child k os'.
Proof. apply List.filter_app. Qed.


(** The page after a denied click, on a page that does not use the modal's
    ids. *)
Lemma denied_click_gate user st id g s :
  70 <= s → data_risk_score (get st id) = Some (Number_toString s) →
  ids_free (body_children g) →
  (handleLinkClick user st (Some id) g).2
  = mkGate true true
      (body_children g
       ++ [the_modal (created g) (href_prop (get st id)) (Number_toString s)
                     (or_default (data_risk_level (get st id)) "UNKNOWN")])
      (S (created g)) (dialogs g).
Proof.
  intros Hs Hattr Hfree.
  pose proof (riskScore_annotated st id s Hattr) as Hscore.
  rewrite gate_deny by (rewrite Hscore; apply ge_Num; lia).
  rewrite Hscore. cbn [snd].
  destruct (showWarningModal_spec (href_prop (get st id)) (Num s)
              (or_default (data_risk_level (get st id)) "UNKNOWN")
              (mkGate true true (body_children g) (created g) (dialogs g)))
    as (_ & _ & _ & _ & _ & Hbody).
  specialize (Hbody Hfree). cbn [body_children created jsnum_toString] in Hbody.
  set (g' := (showWarningModal _ _ _ _).2) in *.
  destruct g' as [p q b c d] eqn:E. cbn in Hbody. subst b.
  assert (E' : g' = (showWarningModal (href_prop (get st id)) (Num s)
                       (or_default (data_risk_level (get st id)) "UNKNOWN")
                       (mkGate true true (body_children g) (created g) (dialogs g))).2)
    by done.
  rewrite E in E'. cbn in E'. by injection E' as -> -> _ -> ->.
Qed.

End Buttons.

(** X11 — Close and Report Threat dismiss the modal and nothing more.  After
    a denied click on a link whose level and URL contain no [<], on a page
    that does not use the modal's ids, a click on
    Close removes the modal, so the body has the children it had before; a
    click on Report Threat shows one acknowledgement and removes the modal
    too.  Neither loads a URL, and the default action of the link click
    stays cancelled. *)
Theorem modal_buttons_only_dismiss
    (user : string → bool) (st : Content.page) (id : Content.elemId)
    (g : Content.gate) (s : Z) :
  70 <= s → JS.prints_plainly s →
  Content.data_risk_score (Content.get st id) = Some (JS.Number_toString s) →
  JS.has_tag_open (JS.or_default (Content.data_risk_level (Content.get st id)) "UNKNOWN")
  = false →
  JS.has_tag_open (Content.href_prop (Content.get st id)) = false →
  Props.ids_free (Content.body_children g) →
  Surface.keys_below g →
  let g' := (Content.handleLinkClick user st (Some id) g).2 in
  let n := length (Content.body_children g) in
  let close := Surface.click_button n 0 g' in
  let report := Surface.click_button n 1 g' in
  Content.body_children (Surface.gate_after close) = Content.body_children g
  ∧ Surface.alerts close = [] ∧ Surface.loads close = []
  ∧ Content.defaultPrevented (Surface.gate_after close) = true
  ∧ Content.body_children (Surface.gate_after report) = Content.body_children g
  ∧ Surface.alerts report = ["Thank you for reporting! This threat has been logged."]
  ∧ Surface.loads report = []
  ∧ Content.defaultPrevented (Surface.gate_after report) = true.
Proof.
  intros Hs _ Hattr _ _ Hfree Hkeys g' n close report.
  assert (E : g' = _) by (by apply (denied_click_gate user st id g s)).
  unfold close, report, Surface.click_button. rewrite E. cbn [Content.body_children].
  rewrite list_lookup_middle by done. cbn -[Surface.remove_child].
  rewrite remove_child_app, (remove_child_below _ _ Hkeys). cbn.
  rewrite Nat.eqb_refl. cbn. rewrite app_nil_r. done.
Qed.

Lemma modal_buttons_only_dismiss_witness :
  let g' := (Content.handleLinkClick Examples.yes
               (Examples.page_with (Examples.annotated "http://evil/" "85" "HIGH RISK"))
               (Some 1%nat) Examples.untouched_event).2 in
  Content.body_children (Surface.gate_after (Surface.click_button 0 0 g')) = [].
Proof.
  intros g'.
  destruct (modal_buttons_only_dismiss Examples.yes
              (Examples.page_with (Examples.annotated "http://evil/" "85" "HIGH RISK"))
              1%nat Examples.untouched_event 85 ltac:(lia) eq_refl eq_refl
              eq_refl eq_refl ltac:(constructor) ltac:(constructor)) as (Hc & _).
  exact Hc.
Defined.



(* ===================================================================== *)
(** ** The coordinator's counters and notifications                       *)
(* ===================================================================== *)

Section Counters.
Import JS Background Coordinator.

Lemma showNotification_frame sc lv rc w :
  stats (showNotification sc lv rc w) = stats w
  ∧ storage_stats (showNotification sc lv rc w) = storage_stats w
  ∧ tabs (showNotification sc lv rc w) = tabs w
  ∧ fetched (showNotification sc lv rc w) = fetched w
  ∧ console_error (showNotification sc lv rc w) = console_error w
  ∧ ∃ n, notifications (showNotification sc lv rc w) = notifications w ++ [n]
         ∧ n_priority n = Some (notification_tier sc).2.
Proof.
  unfold showNotification. destruct (notification_tier sc) as [emoji priority].
  split_and!; try done. eexists. split; reflexivity.
Qed.

Lemma step_counters w e :
  is_load e = false →
  urlsScanned (stats (step w e)) = urlsScanned (stats w) + bump (counted e)
  ∧ threatsBlocked (stats (step w e)) = threatsBlocked (stats w) + bump (threat e).
Proof.
  intros Hload. destruct e as [url | tab ts o | o |]; [| | | done].
  - cbn. lia.
  - destruct o as [|ok [|[|sc lv rc]]]; cbn; try lia.
    unfold showNotification. destruct (notification_tier sc) as [emoji priority].
    destruct (ge (ToNumber sc) 70); [destruct tab |]; cbn; lia.
  - destruct o as [|ok [|[|sc lv rc]]]; cbn; try lia.
    unfold showNotification. destruct (notification_tier sc). cbn. lia.
Qed.

Lemma tally_cons f e es : tally f (e :: es) = bump (f e) + tally f es.
Proof.
  unfold tally. cbn [List.filter]. destruct (f e); cbn [bump length]; lia.
Qed.

Lemma threat_counted e : threat e = true → counted e = true.
Proof. by destruct e as [| ? ? [|? [|[|]]] | |]. Qed.

End Counters.

(** X13 — What the counters count.  Over any sequence of analyses started
    and answered and of text analyses (no reload of the stored counters in
    between), [urlsScanned] grows by the number of URL answers whose body
    parsed as JSON (a [null] body included, a rejected or unparsable one
    not), [threatsBlocked] by the number of those with a score of 70 or
    more, and [threatsBlocked] stays at most [urlsScanned] if it was. *)
Theorem counters_count_parsed_answers (es : list Coordinator.event) (w : Background.worker) :
  forallb (λ e, negb (Coordinator.is_load e)) es = true →
  let w' := Coordinator.run es w in
  Background.urlsScanned (Background.stats w')
  = Background.urlsScanned (Background.stats w) + Coordinator.tally Coordinator.counted es
  ∧ Background.threatsBlocked (Background.stats w')
    = Background.threatsBlocked (Background.stats w) + Coordinator.tally Coordinator.threat es
  ∧ (Background.threatsBlocked (Background.stats w) <= Background.urlsScanned (Background.stats w) →
     Background.threatsBlocked (Background.stats w') <= Background.urlsScanned (Background.stats w')).
Proof.
  revert w. induction es as [|e es IH]; intros w Hes w'.
  { unfold w', Coordinator.tally. cbn. split_and!; lia. }
  cbn [forallb] in Hes. apply andb_prop in Hes as [He Hes].
  apply negb_true_iff in He.
  destruct (step_counters w e He) as [Hu Ht].
  destruct (IH (Coordinator.step w e) Hes) as (IHu & IHt & IHle).
  unfold w'. cbn [Coordinator.run foldl]. fold (Coordinator.run es (Coordinator.step w e)).
  rewrite !tally_cons. split_and!; [lia | lia |].
  intros Hle. apply IHle. rewrite Hu, Ht.
  pose proof (threat_counted e) as Htc.
  destruct (Coordinator.threat e); [rewrite Htc by done |];
    destruct (Coordinator.counted e); cbn; lia.
Qed.

Lemma counters_count_parsed_answers_witness :
  let hi := JS.Responded true (JS.Json (JS.JObject (JS.SInt 85) (JS.VStr "HIGH RISK")
                                                   JS.VUndefined)) in
  let w := Background.mkWorker Coordinator.initial_stats None ∅ [] [] [] in
  Background.urlsScanned
    (Background.stats
       (Coordinator.run
          [Coordinator.Requested "http://a/"; Coordinator.Requested "http://b/";
           Coordinator.Answered (Some 1%nat) "t1" (JS.Responded true (JS.Json JS.JNull));
           Coordinator.Answered (Some 1%nat) "t2" hi;
           Coordinator.Requested "http://c/";
           Coordinator.Answered (Some 1%nat) "t3" JS.Rejected] w))
  = 0 + 2.
Proof.
  intros hi w.
  destruct (counters_count_parsed_answers
              [Coordinator.Requested "http://a/"; Coordinator.Requested "http://b/";
               Coordinator.Answered (Some 1%nat) "t1" (JS.Responded true (JS.Json JS.JNull));
               Coordinator.Answered (Some 1%nat) "t2" hi;
               Coordinator.Requested "http://c/";
               Coordinator.Answered (Some 1%nat) "t3" JS.Rejected] w eq_refl)
    as (Hu & _).
  exact Hu.
Defined.

(** X14 — A threat with no tab to redirect.  When the score is 70 or more
    and [analyzeURL] was given no tab, the counters are updated and stored
    (the URL is counted as a blocked threat) and the result is notified, but
    reading [tab.id] throws: no tab is redirected, the THREAT BLOCKED alert
    is not raised, and the user is told that the analysis failed. *)
Theorem threat_without_tab_is_counted_not_blocked
    (timestamp : string) (ok : bool) (score : JS.jsscore)
    (level recommendation : JS.jsval) (w : Background.worker) :
  JS.ge (JS.ToNumber score) 70 = true →
  let w' := Background.analyzeURL_resume None timestamp
              (JS.Responded ok (JS.Json (JS.JObject score level recommendation))) w in
  Background.tabs w' = Background.tabs w
  ∧ Background.threatsBlocked (Background.stats w')
    = Background.threatsBlocked (Background.stats w) + 1
  ∧ Background.storage_stats w' = Some (Background.stats w')
  ∧ Background.console_error w' = Background.console_error w ++ [JS.TypeError]
  ∧ (∃ n, Background.notifications w'
          = Background.notifications w ++ [n; Background.analysis_failed]
          ∧ Background.n_priority n = Some 2)
  ∧ Background.threat_blocked score ∉ drop (length (Background.notifications w))
                                           (Background.notifications w').
Proof.
  intros H70 w'. unfold w', Background.analyzeURL_resume,
    Background.showNotification, Background.notification_tier.
  rewrite H70. cbn. split_and!; try done.
  - eexists. rewrite <- app_assoc. split; reflexivity.
  - rewrite <- app_assoc, drop_app_length. cbn.
    intros [H | [H | H]%elem_of_cons]%elem_of_cons; try discriminate H.
    by apply elem_of_nil in H.
Qed.

Lemma threat_without_tab_is_counted_not_blocked_witness :
  let w := Background.mkWorker Coordinator.initial_stats None {[ 1%nat := "http://evil/" ]}
                               [] [] [] in
  Background.tabs
    (Background.analyzeURL_resume None "t"
       (JS.Responded true (JS.Json (JS.JObject (JS.SInt 85) (JS.VStr "HIGH RISK")
                                               JS.VUndefined))) w)
  = {[ 1%nat := "http://evil/" ]}.
Proof.
  intros w.
  destruct (threat_without_tab_is_counted_not_blocked "t" true (JS.SInt 85)
              (JS.VStr "HIGH RISK") JS.VUndefined w eq_refl) as (Ht & _).
  exact Ht.
Defined.

(** X15 — The text analysis only notifies.  Whatever the answer,
    [analyzeText] changes neither the counters nor storage nor any tab, not
    even for a score of 70 or more.  An object answer is shown in one
    notification with the priority of its tier; a rejected, unparsable or
    [null] answer is logged and, unlike in [analyzeURL], not notified. *)
Theorem text_analysis_only_notifies (o : JS.fetch_outcome) (w : Background.worker) :
  let w' := Coordinator.analyzeText_resume o w in
  Background.stats w' = Background.stats w
  ∧ Background.storage_stats w' = Background.storage_stats w
  ∧ Background.tabs w' = Background.tabs w
  ∧ (∀ err, More.caught o = Some err →
            Background.notifications w' = Background.notifications w
            ∧ Background.console_error w' = Background.console_error w ++ [err])
  ∧ (∀ ok score level recommendation,
       o = JS.Responded ok (JS.Json (JS.JObject score level recommendation)) →
       Background.console_error w' = Background.console_error w
       ∧ ∃ n, Background.notifications w' = Background.notifications w ++ [n]
              ∧ Background.n_priority n
                = Some (if JS.ge (JS.ToNumber score) 70 then 2
                        else if JS.ge (JS.ToNumber score) 40 then 1 else 0)).
Proof.
  intros w'. unfold w'.
  destruct o as [|ok [|[|sc lv rc]]]; cbn [Coordinator.analyzeText_resume].
  1-3: split_and!; try done; try (by intros err [= <-]); by intros ? ? ? ? [=].
  destruct (showNotification_frame sc lv rc w) as (-> & -> & -> & _ & Hc & n & Hn & Hp).
  split_and!; try done.
  intros ok' sc' lv' rc' [= <- <- <- <-]. split; [done |].
  exists n. split; [done |]. rewrite Hp. unfold Background.notification_tier.
  by destruct (JS.ge (JS.ToNumber sc) 70), (JS.ge (JS.ToNumber sc) 40).
Qed.

Lemma text_analysis_only_notifies_witness :
  let w := Background.mkWorker Coordinator.initial_stats None ∅ [] [] [] in
  Background.console_error (Coordinator.analyzeText_resume JS.Rejected w)
  = [JS.NetworkError].
Proof.
  intros w.
  destruct (text_analysis_only_notifies JS.Rejected w) as (_ & _ & _ & Hfail & _).
  destruct (Hfail JS.NetworkError eq_refl) as [_ Hlog]. exact Hlog.
Defined.

(** X16 — A failed URL analysis.  When the request is rejected or its body
    is not JSON or is [null], [analyzeURL] logs the error and raises one
    Analysis Failed notification; no tab is redirected, nothing is written
    to storage and [threatsBlocked] is unchanged.  [urlsScanned] is
    unchanged too, except for a [null] body: there the counter has already
    been incremented in memory when reading the score throws, so memory is
    one ahead of what is stored. *)
Theorem failed_url_analysis_notifies
    (tab : option Background.tabId) (timestamp : string) (o : JS.fetch_outcome)
    (err : JS.error) (w : Background.worker) :
  More.caught o = Some err →
  let w' := Background.analyzeURL_resume tab timestamp o w in
  Background.notifications w' = Background.notifications w ++ [Background.analysis_failed]
  ∧ Background.console_error w' = Background.console_error w ++ [err]
  ∧ Background.tabs w' = Background.tabs w
  ∧ Background.storage_stats w' = Background.storage_stats w
  ∧ Background.threatsBlocked (Background.stats w')
    = Background.threatsBlocked (Background.stats w)
  ∧ Background.lastScan (Background.stats w') = Background.lastScan (Background.stats w)
  ∧ Background.urlsScanned (Background.stats w')
    = Background.urlsScanned (Background.stats w)
      + (match err with JS.TypeError => 1 | _ => 0 end).
Proof.
  intros Hc w'. unfold w'.
  destruct o as [|ok [|[|sc lv rc]]]; cbn in Hc; try discriminate Hc;
    injection Hc as <-; cbn; split_and!; try done; lia.
Qed.

Lemma failed_url_analysis_notifies_witness :
  let w := Background.mkWorker Coordinator.initial_stats None ∅ [] [] [] in
  Background.urlsScanned
    (Background.stats
       (Background.analyzeURL_resume (Some 1%nat) "t"
          (JS.Responded true (JS.Json JS.JNull)) w))
  = 0 + 1.
Proof.
  intros w.
  destruct (failed_url_analysis_notifies (Some 1%nat) "t"
              (JS.Responded true (JS.Json JS.JNull)) JS.TypeError w eq_refl)
    as (_ & _ & _ & _ & _ & _ & Hu).
  exact Hu.
Defined.

(** X17 — The popup and the page agree on the tier, the notification does
    not.  For every score value, [displayResult] picks the glyph and the
    colour [addRiskIndicator] picks; the coordinator's notification picks
    the same glyph exactly when the score is not in the INFO band
    (at least 20, below 40). *)
Theorem popup_and_page_agree_on_tier (score : JS.jsscore) (e : Content.element) :
  Popup.displayResult_tier score
  = ((Content.indicator score e).1.2, (Content.indicator score e).1.1)
  ∧ ((Background.notification_tier score).1 = (Popup.displayResult_tier score).1
     ↔ ¬ (JS.ge (JS.ToNumber score) 20 = true ∧ JS.ge (JS.ToNumber score) 40 = false)).
Proof.
  unfold Popup.displayResult_tier, Content.indicator, Background.notification_tier.
  destruct (JS.ge (JS.ToNumber score) 70) eqn:H70.
  { assert (H40 : JS.ge (JS.ToNumber score) 40 = true).
    { destruct (JS.ToNumber score); [done |]. cbn in *. lia. }
    rewrite H40. split; [done |]. split; [intros _ [_ H]; discriminate H | done]. }
  destruct (JS.ge (JS.ToNumber score) 40) eqn:H40.
  { split; [done |]. split; [intros _ [_ H]; discriminate H | done]. }
  destruct (JS.ge (JS.ToNumber score) 20) eqn:H20; cbn.
  - split; [done |]. split; [intros H; discriminate H | intros H; by destruct H].
  - split; [done |]. split; [intros _ [H _]; discriminate H | done].
Qed.

Lemma popup_and_page_agree_on_tier_witness :
  (Background.notification_tier (JS.SInt 10)).1 = (Popup.displayResult_tier (JS.SInt 10)).1.
Proof.
  apply (proj2 (popup_and_page_agree_on_tier (JS.SInt 10) (Examples.anchor "http://a/"))).
  intros [H _]. discriminate H.
Defined.

Section Stored.
Import JS Background Coordinator.

Lemma step_stored w e :
  is_load e = false →
  storage_stats (step w e) = storage_stats w
  ∨ storage_stats (step w e) = Some (stats (step w e)).
Proof.
  intros H. destruct e as [url | tab ts o | o |]; [by left | | | discriminate H].
  - destruct o as [|ok [|[|sc lv rc]]]; try by left.
    right. cbn. unfold showNotification. destruct (notification_tier sc).
    destruct (ge (ToNumber sc) 70); [destruct tab |]; reflexivity.
  - left. destruct o as [|ok [|[|sc lv rc]]]; try done.
    cbn. unfold showNotification. by destruct (notification_tier sc).
Qed.

End Stored.

(** X18 — What is stored never runs ahead of the counters.  If the stored
    snapshot, when there is one, counts no more URLs and no more threats
    than the counters in memory, this stays so through every analysis
    started or answered, every text analysis and every arrival of the stored
    counters; and right after the stored counters arrive, memory holds
    exactly the snapshot. *)
Theorem stored_counters_never_lead (es : list Coordinator.event) (w : Background.worker) :
  let behind w :=
    ∀ s, Background.storage_stats w = Some s →
         Background.urlsScanned s <= Background.urlsScanned (Background.stats w)
         ∧ Background.threatsBlocked s <= Background.threatsBlocked (Background.stats w) in
  behind w →
  behind (Coordinator.run es w)
  ∧ ∀ s, Background.storage_stats (Coordinator.run es w) = Some s →
         Background.stats (Coordinator.run (es ++ [Coordinator.StatsLoaded]) w) = s.
Proof.
  intros behind Hw. split.
  - revert w Hw. induction es as [|e es IH]; intros w Hw; [done |].
    cbn [Coordinator.run foldl]. apply IH. clear IH es.
    intros s Hs.
    destruct (Coordinator.is_load e) eqn:Hload.
    { destruct e; try discriminate Hload. cbn [Coordinator.step] in *.
      unfold Coordinator.stats_loaded in *.
      destruct (Background.storage_stats w) as [s0|] eqn:E.
      - change (Background.storage_stats w = Some s) in Hs. rewrite E in Hs.
        injection Hs as <-. cbn. lia.
      - rewrite E in Hs. discriminate Hs. }
    destruct (step_counters w e Hload) as [Hu Ht].
    destruct (step_stored w e Hload) as [E | E]; rewrite E in Hs.
    + destruct (Hw s Hs) as [H1 H2]. rewrite Hu, Ht.
      destruct (Coordinator.counted e), (Coordinator.threat e); cbn; lia.
    + injection Hs as <-. lia.
  - intros s Hs. unfold Coordinator.run. rewrite foldl_app. cbn.
    fold (Coordinator.run es w). unfold Coordinator.stats_loaded. by rewrite Hs.
Qed.

Lemma stored_counters_never_lead_witness :
  let w := Background.mkWorker Coordinator.initial_stats None ∅ [] [] [] in
  let es := [Coordinator.Answered (Some 1%nat) "t1"
               (JS.Responded true (JS.Json (JS.JObject (JS.SInt 85) (JS.VStr "HIGH RISK")
                                                       JS.VUndefined)));
             Coordinator.Answered (Some 1%nat) "t2" (JS.Responded true (JS.Json JS.JNull))] in
  Background.stats (Coordinator.run (es ++ [Coordinator.StatsLoaded]) w)
  = Background.mkStats 1 1 (Some "t1").
Proof.
  intros w es.
  destruct (stored_counters_never_lead es w) as [_ Hload].
  - intros s Hs. discriminate Hs.
  - apply Hload. reflexivity.
Defined.
